(** * Service-call and expense workflow of the engineer portal

    A shallow embedding of the workflow logic of the portal's two screens:

    - [Dashboard] (src/components/Dashboard.tsx): the three call queues
      filled by [fetchServiceCalls] and the status change issued by
      [handleStatusChange];
    - [ServiceCallCard] (src/components/ServiceCallCard.tsx): the action
      button a card offers, its two lookup tables, its dates and what a
      rendering of it shows or throws;
    - [ExpenseSubmissions] (src/components/ExpenseSubmissions.tsx): month
      labels, month filter, display classification and the three totals.

    Records follow src/types.  Values that reach the components from the
    data store are modelled the way the running program holds them: the
    string-literal union types of TypeScript are erased at run time, so a
    status or a category is a [string]; a [number] is an IEEE 754 binary64
    value ([spec_float] of the Standard Library at precision 53). *)

From Stdlib Require Import ZArith QArith Qpower Lqa SpecFloat Ascii String.
From stdpp Require Import base list strings gmap pretty sorting.

Open Scope string_scope.
Open Scope Z_scope.
Open Scope nat_scope.

(** ** Records of src/types *)

Module Customer.
Record t := {
  id : string;
  name : string;
  email : option string;
  phone : option string;
  company : string;
  address : string;
  created_at : string;
  updated_at : string
}.
End Customer.

Module ServiceCall.
Record t := {
  id : string;
  ticket_number : string;
  customer_id : string;
  assigned_engineer_id : string;
  title : string;
  description : string;
  priority : string;
  status : string;
  category : string;
  location : string;
  scheduled_date : option string;
  started_at : option string;
  completed_at : option string;
  notes : string;
  created_at : string;
  updated_at : string;
  customer : option Customer.t
}.

(** The declared type of [status]: 'assigned' | 'in_progress' | 'closed'. *)
Definition status_typed (s : string) : Prop :=
  s = "assigned" ∨ s = "in_progress" ∨ s = "closed".

#[export] Instance status_typed_dec s : Decision (status_typed s).
Proof. unfold status_typed. apply _. Defined.
End ServiceCall.

(** ** The data collaborator, seen from the components

    A query or command resolves to an object [{ data, error }]; the
    components read these two fields and nothing else. *)

Record Response (A : Type) := {
  data : option A;
  error : option string
}.
Arguments data {A} _.
Arguments error {A} _.

Definition resolved {A} (x : A) : Response A := {| data := Some x; error := None |}.
Definition failed {A} (e : string) : Response A := {| data := None; error := Some e |}.

(** What a component sends out: a query, an update, a console line. *)
Inductive Request :=
  | Select (table : string) (engineer : string)
  | Update (table : string) (updateData : gmap string (option string)) (eq_id : string)
  | ConsoleError (message : string).

Definition is_update (r : Request) : bool :=
  match r with Update _ _ _ => true | _ => false end.

(** ** src/components/Dashboard.tsx *)

Module Dashboard.

Record State := {
  assignedCalls : list ServiceCall.t;
  inProgressCalls : list ServiceCall.t;
  closedCalls : list ServiceCall.t;
  loading : bool;
  refreshing : bool
}.

(** What one run of a handler leaves behind: the requests it sent, in
    order, and the component state. *)
Record Outcome := {
  requests : list Request;
  state : State
}.

(** [typedData.filter(call => call.status === s)] *)
Definition withStatus (s : string) (typedData : list ServiceCall.t) : list ServiceCall.t :=
  filter (λ call, ServiceCall.status call = s) typedData.

(** The [finally] block of [fetchServiceCalls]. *)
Definition settle (st : State) : State :=
  {| assignedCalls := assignedCalls st;
     inProgressCalls := inProgressCalls st;
     closedCalls := closedCalls st;
     loading := false;
     refreshing := false |}.

(** [fetchServiceCalls], given the engineer and what the query resolved to. *)
Definition fetchServiceCalls (user_id : string)
    (response : Response (list ServiceCall.t)) (st : State) : Outcome :=
  let query := Select "service_calls" user_id in
  match error response with
  | Some _ =>
      {| requests := [query; ConsoleError "Error fetching service calls:"];
         state := settle st |}
  | None =>
      match data response with
      | Some typedData =>
          {| requests := [query];
             state := settle
               {| assignedCalls := withStatus "assigned" typedData;
                  inProgressCalls := withStatus "in_progress" typedData;
                  closedCalls := withStatus "closed" typedData;
                  loading := loading st;
                  refreshing := refreshing st |} |}
      | None => {| requests := [query]; state := settle st |}
      end
  end.

(** The object [updateData] built by [handleStatusChange]; [now] is the
    value of [new Date().toISOString()] at the time of the call. *)
Definition updateData (now newStatus : string) : gmap string (option string) :=
  let updateData : gmap string (option string) := {[ "status" := Some newStatus ]} in
  if decide (newStatus = "in_progress") then
    <[ "started_at" := Some now ]> updateData
  else if decide (newStatus = "closed") then
    <[ "completed_at" := Some now ]> updateData
  else updateData.

(** [handleStatusChange], given the clock reading and what the update and
    the following query resolved to. *)
Definition handleStatusChange (user_id now : string)
    (updated : Response unit) (fetched : Response (list ServiceCall.t))
    (callId newStatus : string) (st : State) : Outcome :=
  let command := Update "service_calls" (updateData now newStatus) callId in
  match error updated with
  | Some _ =>
      {| requests := [command; ConsoleError "Error updating service call:"];
         state := st |}
  | None =>
      let after := fetchServiceCalls user_id fetched st in
      {| requests := command :: requests after; state := state after |}
  end.

(** [handleRefresh]: the flag goes up, then the fetch runs. *)
Definition handleRefresh (user_id : string)
    (response : Response (list ServiceCall.t)) (st : State) : Outcome :=
  fetchServiceCalls user_id response
    {| assignedCalls := assignedCalls st;
       inProgressCalls := inProgressCalls st;
       closedCalls := closedCalls st;
       loading := loading st;
       refreshing := true |}.

End Dashboard.


(** ** JavaScript numbers

    A [number] is an IEEE 754 binary64 value; [+] on numbers is the
    correctly rounded (nearest, ties to even) addition. *)

Module Binary64.

Definition prec : Z := 53.
Definition emax : Z := 1024.

Definition number := spec_float.

Definition zero : number := S754_zero false.
Definition add : number → number → number := SFadd prec emax.
Definition div : number → number → number := SFdiv prec emax.

(** The number an integer literal denotes. *)
Definition of_Z (n : Z) : number := binary_normalize prec emax n 0 false.

(** The number a decimal with two places denotes, given in hundredths:
    the binary64 value nearest to [c / 100], as a numeric(10,2) column value
    arrives after JSON parsing. *)
Definition of_cents (c : Z) : number := div (of_Z c) (of_Z 100).

Definition is_finite (x : number) : bool :=
  match x with
  | S754_zero _ | S754_finite _ _ _ => true
  | _ => false
  end.

(** The rational a finite number stands for. *)
Definition value (x : number) : Q :=
  match x with
  | S754_finite s m e => inject_Z (cond_Zopp s (Zpos m)) * 2 ^ e
  | _ => 0
  end.

(** The representations the arithmetic produces and accepts: the mantissa
    has 53 bits, or fewer at the smallest exponent. *)
Definition valid (x : number) : bool := valid_binary prec emax x.

(** The smallest exponent: [2 ^ emin] is the smallest positive number. *)
Definition emin : Z := -1074.

(** A valid finite number counted in steps of [2 ^ emin]. *)
Definition units (x : number) : Z :=
  match x with
  | S754_finite s m e => (cond_Zopp s (Zpos m) * 2 ^ (e - emin))%Z
  | _ => 0%Z
  end.

(** [x] is a valid finite number of [X] steps of [2 ^ (emin + G)], and
    [X] is not negative. *)
Definition on_grid (G X : Z) (x : number) : Prop :=
  valid x = true ∧ is_finite x = true ∧ (0 ≤ X)%Z ∧ units x = (X * 2 ^ G)%Z.

End Binary64.

Module ExpenseSubmission.
Record t := {
  id : string;
  engineer_id : string;
  expense_date : string;
  category : string;
  amount : Binary64.number;
  currency : string;
  description : string;
  receipt_url : string;
  service_call_id : option string;
  status : string;
  submitted_at : option string;
  reviewed_at : option string;
  reviewed_by : option string;
  review_notes : string;
  payment_date : option string;
  created_at : string;
  updated_at : string
}.

(** The declared type of [status]. *)
Definition status_typed (s : string) : Prop :=
  s ∈ ["draft"; "submitted"; "under_review"; "approved"; "rejected"; "paid"].

(** The declared type of [category]. *)
Definition category_typed (c : string) : Prop :=
  c ∈ ["travel"; "meals"; "materials"; "fuel"; "accommodation"; "other"].
End ExpenseSubmission.

(** ** The parts of the JavaScript runtime the expense screen calls *)

Module JS.

(** [Number(x)] of a value that is a number already. *)
Definition Number (x : Binary64.number) : Binary64.number := x.

(** [xs.reduce(f, init)] *)
Definition reduce {A B} (f : B → A → B) (init : B) (xs : list A) : B :=
  foldl f init xs.

(** [Array.from(new Set(xs))]: a Set keeps the first occurrence of each
    value, in insertion order. *)
Definition Set_add (seen : list string) (x : string) : list string :=
  if decide (x ∈ seen) then seen else seen ++ [x].

Definition Array_from_Set (xs : list string) : list string :=
  foldl Set_add [] xs.

(** [xs.sort(comparefn)].  A comparator result is a number, [None] standing
    for NaN, which the sort reads as +0.  The sort is stable; for a
    consistent comparator its result does not depend on the algorithm, and
    insertion from the right is one that meets the contract. *)
Definition SortCompare {A} (comparefn : A → A → option Z) (x y : A) : Z :=
  default 0%Z (comparefn x y).

Fixpoint sort_insert {A} (comparefn : A → A → option Z) (x : A) (l : list A) : list A :=
  match l with
  | [] => [x]
  | y :: l' =>
      if decide (SortCompare comparefn x y ≤ 0)%Z then x :: y :: l'
      else y :: sort_insert comparefn x l'
  end.

Definition sort {A} (comparefn : A → A → option Z) (xs : list A) : list A :=
  foldr (sort_insert comparefn) [] xs.

(** How a call ends: with a value, or with an error thrown. *)
Inductive Completion (A : Type) :=
  | normal (value : A)
  | throw (error : string).
Arguments normal {A} _.
Arguments throw {A} _.

#[export] Instance Completion_ret : MRet Completion := λ A, normal.
#[export] Instance Completion_bind : MBind Completion := λ A B f c,
  match c with
  | normal a => f a
  | throw e => throw e
  end.
#[export] Instance Completion_fmap : FMap Completion := λ A B f c,
  match c with
  | normal a => normal (f a)
  | throw e => throw e
  end.

(** What a property read [object[key]] finds on an object literal whose
    entries are strings: the literal's own entry under that name; failing
    that, what the literal inherits from [Object.prototype] under that
    name, one of its functions or, under [__proto__], the prototype object
    itself; failing that, [undefined]. *)
Inductive Property :=
  | entry (value : string)
  | inheritedFunction (name : string)
  | inheritedPrototype
  | undefined.

#[export] Instance Property_eq_dec : EqDecision Property.
Proof. solve_decision. Defined.

(** The functions of [Object.prototype], by name. *)
Definition ObjectPrototype_functions : list string :=
  ["constructor"; "hasOwnProperty"; "isPrototypeOf"; "propertyIsEnumerable";
   "toLocaleString"; "toString"; "valueOf";
   "__defineGetter__"; "__defineSetter__"; "__lookupGetter__"; "__lookupSetter__"].

Definition Get (entries : gmap string string) (key : string) : Property :=
  match entries !! key with
  | Some value => entry value
  | None =>
      if decide (key = "__proto__") then inheritedPrototype
      else if decide (key ∈ ObjectPrototype_functions) then inheritedFunction key
      else undefined
  end.

(** The Date object, as far as the components use it: construction from a
    string, the time value ([None] for the NaN of an invalid date, which is
    also what makes Intl's [format] throw), and
    [toLocaleString('en-US', { year: 'numeric', month: 'long' })]. *)
Class DateRuntime := {
  Date : Type;
  newDate : string → Date;
  getTime : Date → option Z;
  toLocaleString_year_month : Date → string
}.

(** Subtraction of two time values: NaN as soon as one of them is.  Time
    values are whole numbers of milliseconds; the difference is kept exact
    here, and its sign, which is all the sort reads, is the sign of the
    number the subtraction gives. *)
Definition minus (a b : option Z) : option Z :=
  match a, b with
  | Some x, Some y => Some (x - y)%Z
  | _, _ => None
  end.

End JS.

(** ** src/components/ServiceCallCard.tsx *)

Module ServiceCallCard.
Import JS.

(** A rendered button: the arguments its click passes to [onStatusChange]
    and its caption. *)
Record Button := {
  onClick : string * string;
  caption : string
}.

(** The badge table of the card, an object literal that the card reads by
    name only: [priorityColors[call.priority]]. *)
Definition priorityColors : string → Property :=
  Get {[ "low" := "bg-blue-100 text-blue-800 border-blue-200";
         "medium" := "bg-yellow-100 text-yellow-800 border-yellow-200";
         "high" := "bg-orange-100 text-orange-800 border-orange-200";
         "critical" := "bg-red-100 text-red-800 border-red-200" ]}.

(** The icon table of the card: [categoryIcons[call.category]]. *)
Definition categoryIcons : string → Property :=
  Get {[ "installation" := "🔧"; "repair" := "🛠️"; "maintenance" := "⚙️";
         "inspection" := "🔍"; "other" := "📋" ]}.

Definition getActionButton (call : ServiceCall.t) : option Button :=
  if decide (ServiceCall.status call = "assigned") then
    Some {| onClick := (ServiceCall.id call, "in_progress"); caption := "Start Work" |}
  else if decide (ServiceCall.status call = "in_progress") then
    Some {| onClick := (ServiceCall.id call, "closed"); caption := "Complete" |}
  else None.

(** A nullable string used as a condition: [null] and the empty string
    count as false, any other string as true. *)
Definition present (s : option string) : option string :=
  match s with
  | Some s => if decide (s = "") then None else Some s
  | None => None
  end.

(** The text of a date on the card: the fixed words, or what Intl writes
    (month, day, hour and minute) for the date string handed to it. *)
Inductive DateText :=
  | NotScheduled
  | Formatted (dateString : string).

(** [formatDate]: the fixed words for [null] and for the empty string;
    any other string goes through [new Date] to [Intl.DateTimeFormat]'s
    [format], which throws a RangeError when the date is invalid. *)
Definition formatDate `{DateRuntime} (dateString : option string) : Completion DateText :=
  match present dateString with
  | None => normal NotScheduled
  | Some s =>
      let date := newDate s in
      match getTime date with
      | Some _ => normal (Formatted s)
      | None => throw "RangeError"
      end
  end.

(** What the card puts on the screen, part by part; [None] where a part is
    left out. *)
Record View := {
  icon : Property;
  badge : Property;
  descriptionText : option string;
  customerName : option string;
  locationText : string;
  scheduledText : DateText;
  notesText : option string;
  startedBanner : option DateText;
  completedBanner : option DateText;
  actionButton : option Button
}.

(** The branch [formatDate] takes on its argument, before Date and Intl
    are called. *)
Definition dateText (dateString : option string) : DateText :=
  match present dateString with
  | None => NotScheduled
  | Some s => Formatted s
  end.

(** The card as its JSX lays it out, each date standing for the call of
    [formatDate] on it.  Whether these calls return is the matter of
    [render] below. *)
Definition view (call : ServiceCall.t) : View :=
  {| icon := categoryIcons (ServiceCall.category call);
     badge := priorityColors (ServiceCall.priority call);
     descriptionText := present (Some (ServiceCall.description call));
     customerName := Customer.name <$> ServiceCall.customer call;
     locationText :=
       if decide (ServiceCall.location call = "") then "No location specified"
       else ServiceCall.location call;
     scheduledText := dateText (ServiceCall.scheduled_date call);
     notesText := present (Some (ServiceCall.notes call));
     startedBanner :=
       if decide (ServiceCall.status call = "in_progress") then
         match present (ServiceCall.started_at call) with
         | Some _ => Some (dateText (ServiceCall.started_at call))
         | None => None
         end
       else None;
     completedBanner :=
       if decide (ServiceCall.status call = "closed") then
         match present (ServiceCall.completed_at call) with
         | Some _ => Some (dateText (ServiceCall.completed_at call))
         | None => None
         end
       else None;
     actionButton := getActionButton call |}.

(** One rendering of the card.  The component function runs its
    [formatDate] calls in the order of the JSX: the scheduled date always,
    the started date when the Started banner is shown, the completed date
    when the Completed banner is shown; the first that throws ends the
    rendering.  The element it returns is then mounted, and an icon that
    is an object, not a text, is refused as a child. *)
Definition render `{DateRuntime} (call : ServiceCall.t) : Completion View :=
  scheduled ← formatDate (ServiceCall.scheduled_date call);
  started ←
    (if decide (ServiceCall.status call = "in_progress") then
       match present (ServiceCall.started_at call) with
       | Some _ => Some <$> formatDate (ServiceCall.started_at call)
       | None => normal None
       end
     else normal None);
  completed ←
    (if decide (ServiceCall.status call = "closed") then
       match present (ServiceCall.completed_at call) with
       | Some _ => Some <$> formatDate (ServiceCall.completed_at call)
       | None => normal None
       end
     else normal None);
  if decide (categoryIcons (ServiceCall.category call) = inheritedPrototype) then
    throw "Objects are not valid as a React child"
  else
    normal
      {| icon := categoryIcons (ServiceCall.category call);
         badge := priorityColors (ServiceCall.priority call);
         descriptionText := present (Some (ServiceCall.description call));
         customerName := Customer.name <$> ServiceCall.customer call;
         locationText :=
           if decide (ServiceCall.location call = "") then "No location specified"
           else ServiceCall.location call;
         scheduledText := scheduled;
         notesText := present (Some (ServiceCall.notes call));
         startedBanner := started;
         completedBanner := completed;
         actionButton := getActionButton call |}.

End ServiceCallCard.

(** ** src/components/ExpenseSubmissions.tsx *)

Module ExpenseSubmissions.
Import JS.

Record Totals := {
  total : Binary64.number;
  approved : Binary64.number;
  pending : Binary64.number
}.

Section Screen.
Context `{DateRuntime}.

Definition getMonthYear (dateString : string) : string :=
  let date := newDate dateString in
  toLocaleString_year_month date.

Definition uniqueMonths (expenses : list ExpenseSubmission.t) : list string :=
  sort (λ a b, minus (getTime (newDate b)) (getTime (newDate a)))
    (Array_from_Set
       (map (λ exp, getMonthYear (ExpenseSubmission.expense_date exp)) expenses)).

Definition filteredExpenses (selectedMonth : string)
    (expenses : list ExpenseSubmission.t) : list ExpenseSubmission.t :=
  if decide (selectedMonth = "all") then expenses
  else filter (λ exp, getMonthYear (ExpenseSubmission.expense_date exp) = selectedMonth)
         expenses.

End Screen.

(** The two [switch] statements: the cases in their order, then [default]. *)
Definition getStatusColor (status : string) : string :=
  if decide (status = "draft") then "bg-gray-100 text-gray-700 border-gray-200"
  else if decide (status = "submitted") then "bg-blue-100 text-blue-700 border-blue-200"
  else if decide (status = "under_review") then "bg-yellow-100 text-yellow-700 border-yellow-200"
  else if decide (status = "approved") then "bg-green-100 text-green-700 border-green-200"
  else if decide (status = "rejected") then "bg-red-100 text-red-700 border-red-200"
  else if decide (status = "paid") then "bg-emerald-100 text-emerald-700 border-emerald-200"
  else "bg-gray-100 text-gray-700 border-gray-200".

Definition getCategoryIcon (category : string) : string :=
  if decide (category = "travel") then "🚗"
  else if decide (category = "meals") then "🍽️"
  else if decide (category = "materials") then "🔧"
  else if decide (category = "fuel") then "⛽"
  else if decide (category = "accommodation") then "🏨"
  else if decide (category = "other") then "📋"
  else "📄".

(** [exp => exp.status === 'approved' || exp.status === 'paid'] *)
Definition isApproved (exp : ExpenseSubmission.t) : Prop :=
  ExpenseSubmission.status exp = "approved" ∨ ExpenseSubmission.status exp = "paid".

(** [exp => exp.status === 'submitted' || exp.status === 'under_review'] *)
Definition isPending (exp : ExpenseSubmission.t) : Prop :=
  ExpenseSubmission.status exp = "submitted" ∨ ExpenseSubmission.status exp = "under_review".

#[export] Instance isApproved_dec exp : Decision (isApproved exp).
Proof. unfold isApproved. apply _. Defined.

#[export] Instance isPending_dec exp : Decision (isPending exp).
Proof. unfold isPending. apply _. Defined.

(** [(sum, exp) => sum + Number(exp.amount)] *)
Definition accumulate (sum : Binary64.number) (exp : ExpenseSubmission.t) : Binary64.number :=
  Binary64.add sum (Number (ExpenseSubmission.amount exp)).

Definition calculateTotals (expenseList : list ExpenseSubmission.t) : Totals :=
  let total := reduce accumulate Binary64.zero expenseList in
  let approved := reduce accumulate Binary64.zero (filter isApproved expenseList) in
  let pending := reduce accumulate Binary64.zero (filter isPending expenseList) in
  {| total := total; approved := approved; pending := pending |}.

(** [const totals = calculateTotals(filteredExpenses)] *)
Definition totals `{DateRuntime} (selectedMonth : string)
    (expenses : list ExpenseSubmission.t) : Totals :=
  calculateTotals (filteredExpenses selectedMonth expenses).

End ExpenseSubmissions.

(** ** A concrete runtime: a browser whose time zone is UTC

    Enough of Date for the strings the screen meets: a calendar date
    [YYYY-MM-DD] as the store delivers an [expense_date] (read as midnight
    UTC), and a label [Month YYYY] as the screen itself produces (read as
    midnight of the first day of that month).  Any other string gives an
    invalid date. *)

Module UTCRuntime.

Definition msPerDay : Z := 86400000.

(** Days from 1970-01-01 to the civil date [y-m-d] (proleptic Gregorian). *)
Definition days_from_civil (y m d : Z) : Z :=
  let y' := if decide (m ≤ 2)%Z then (y - 1)%Z else y in
  let era := (y' / 400)%Z in
  let yoe := (y' - era * 400)%Z in
  let mp := if decide (2 < m)%Z then (m - 3)%Z else (m + 9)%Z in
  let doy := ((153 * mp + 2) / 5 + d - 1)%Z in
  let doe := (yoe * 365 + yoe / 4 - yoe / 100 + doy)%Z in
  (era * 146097 + doe - 719468)%Z.

(** The civil date of a day number: year, month, day. *)
Definition civil_from_days (z : Z) : Z * Z * Z :=
  let z' := (z + 719468)%Z in
  let era := (z' / 146097)%Z in
  let doe := (z' - era * 146097)%Z in
  let yoe := ((doe - doe / 1460 + doe / 36524 - doe / 146096) / 365)%Z in
  let doy := (doe - (365 * yoe + yoe / 4 - yoe / 100))%Z in
  let mp := ((5 * doy + 2) / 153)%Z in
  let d := (doy - (153 * mp + 2) / 5 + 1)%Z in
  let m := if decide (mp < 10)%Z then (mp + 3)%Z else (mp - 9)%Z in
  let y := (yoe + era * 400)%Z in
  (if decide (m ≤ 2)%Z then (y + 1)%Z else y, m, d).

Definition monthNames : list string :=
  ["January"; "February"; "March"; "April"; "May"; "June"; "July";
   "August"; "September"; "October"; "November"; "December"].

Definition digit (c : ascii) : option Z :=
  let n := Z.of_nat (nat_of_ascii c) in
  if decide (48 ≤ n ≤ 57)%Z then Some (n - 48)%Z else None.

Fixpoint digits (acc : Z) (s : string) : option Z :=
  match s with
  | EmptyString => Some acc
  | String c s' =>
      match digit c with
      | Some d => digits (10 * acc + d) s'
      | None => None
      end
  end.

Definition numeral (s : string) : option Z :=
  if decide (s = "") then None else digits 0 s.

Definition parse_calendar_date (s : string) : option (Z * Z * Z) :=
  if decide (String.length s = 10 ∧ substring 4 1 s = "-" ∧ substring 7 1 s = "-") then
    match numeral (substring 0 4 s), numeral (substring 5 2 s), numeral (substring 8 2 s) with
    | Some y, Some m, Some d =>
        if decide (1 ≤ m ≤ 12 ∧ 1 ≤ d ≤ 31)%Z then Some (y, m, d) else None
    | _, _, _ => None
    end
  else None.

Fixpoint month_number (n : Z) (names : list string) (s : string) : option Z :=
  match names with
  | [] => None
  | name :: names' => if decide (s = name) then Some n else month_number (n + 1) names' s
  end.

Definition parse_label (s : string) : option (Z * Z) :=
  match index 0 " " s with
  | Some i =>
      match month_number 1 monthNames (substring 0 i s),
            numeral (substring (S i) (String.length s - S i) s) with
      | Some m, Some y => Some (y, m)
      | _, _ => None
      end
  | None => None
  end.

Definition newDate (s : string) : option Z :=
  match parse_calendar_date s with
  | Some (y, m, d) => Some (days_from_civil y m d * msPerDay)%Z
  | None =>
      match parse_label s with
      | Some (y, m) => Some (days_from_civil y m 1 * msPerDay)%Z
      | None => None
      end
  end.

Definition toLocaleString_year_month (date : option Z) : string :=
  match date with
  | None => "Invalid Date"
  | Some t =>
      let '(y, m, _) := civil_from_days (t / msPerDay) in
      default "" (monthNames !! Z.to_nat (m - 1)) +:+ " " +:+ pretty y
  end.

#[export] Instance runtime : JS.DateRuntime := {|
  JS.Date := option Z;
  JS.newDate := newDate;
  JS.getTime := id;
  JS.toLocaleString_year_month := toLocaleString_year_month
|}.

End UTCRuntime.

(** ** A concrete runtime: a browser at a fixed offset from UTC

    [offset] is the zone's offset in minutes, positive ahead of UTC: 330
    for UTC+05:30, -480 for UTC-08:00.  A calendar date [YYYY-MM-DD] is read
    as midnight UTC in every zone, which is ECMAScript's rule for a
    date-only string; a label [Month YYYY] is read as local midnight of the
    first day of that month; [toLocaleString] writes the local date of a
    time value, which is the UTC date of the time value moved by the
    offset. *)

Module ZonedRuntime.
Import UTCRuntime.

Definition msPerMinute : Z := 60000.

Definition newDate (offset : Z) (s : string) : option Z :=
  match parse_calendar_date s with
  | Some (y, m, d) => Some (days_from_civil y m d * msPerDay)%Z
  | None =>
      match parse_label s with
      | Some (y, m) => Some (days_from_civil y m 1 * msPerDay - offset * msPerMinute)%Z
      | None => None
      end
  end.

Definition toLocaleString_year_month (offset : Z) (date : option Z) : string :=
  match date with
  | None => "Invalid Date"
  | Some t =>
      let '(y, m, _) := civil_from_days ((t + offset * msPerMinute) / msPerDay) in
      default "" (monthNames !! Z.to_nat (m - 1)) +:+ " " +:+ pretty y
  end.

Definition runtime (offset : Z) : JS.DateRuntime := {|
  JS.Date := option Z;
  JS.newDate := newDate offset;
  JS.getTime := id;
  JS.toLocaleString_year_month := toLocaleString_year_month offset
|}.

End ZonedRuntime.

(** ** Sample records *)

Module Sample.

Definition call (id status : string) : ServiceCall.t :=
  {| ServiceCall.id := id;
     ServiceCall.ticket_number := "SC-" +:+ id;
     ServiceCall.customer_id := "c1";
     ServiceCall.assigned_engineer_id := "u1";
     ServiceCall.title := "HVAC";
     ServiceCall.description := "";
     ServiceCall.priority := "medium";
     ServiceCall.status := status;
     ServiceCall.category := "repair";
     ServiceCall.location := "";
     ServiceCall.scheduled_date := None;
     ServiceCall.started_at := None;
     ServiceCall.completed_at := None;
     ServiceCall.notes := "";
     ServiceCall.created_at := "2025-11-01T06:05:56Z";
     ServiceCall.updated_at := "2025-11-01T06:05:56Z";
     ServiceCall.customer := None |}.

(** An expense of [cents] hundredths. *)
Definition expense (id date : string) (cents : Z) (status : string) : ExpenseSubmission.t :=
  {| ExpenseSubmission.id := id;
     ExpenseSubmission.engineer_id := "u1";
     ExpenseSubmission.expense_date := date;
     ExpenseSubmission.category := "travel";
     ExpenseSubmission.amount := Binary64.of_cents cents;
     ExpenseSubmission.currency := "USD";
     ExpenseSubmission.description := "";
     ExpenseSubmission.receipt_url := "";
     ExpenseSubmission.service_call_id := None;
     ExpenseSubmission.status := status;
     ExpenseSubmission.submitted_at := None;
     ExpenseSubmission.reviewed_at := None;
     ExpenseSubmission.reviewed_by := None;
     ExpenseSubmission.review_notes := "";
     ExpenseSubmission.payment_date := None;
     ExpenseSubmission.created_at := "2025-11-08T21:41:01Z";
     ExpenseSubmission.updated_at := "2025-11-08T21:41:01Z" |}.

Definition idle : Dashboard.State :=
  {| Dashboard.assignedCalls := [];
     Dashboard.inProgressCalls := [];
     Dashboard.closedCalls := [];
     Dashboard.loading := true;
     Dashboard.refreshing := false |}.

End Sample.

(** ** src/App.tsx *)

Module App.

Inductive Page := dashboard | expenses.

(** The three pieces of state; a user is known by its id. *)
Record State := {
  user : option string;
  loading : bool;
  currentPage : Page
}.

Definition initial : State :=
  {| user := None; loading := true; currentPage := dashboard |}.

(** [getSession().then(...)]: the user of the session, if any, and the end
    of loading. *)
Definition sessionLoaded (sessionUser : option string) (st : State) : State :=
  {| user := sessionUser; loading := false; currentPage := currentPage st |}.

(** The listener given to [onAuthStateChange]. *)
Definition authStateChanged (sessionUser : option string) (st : State) : State :=
  {| user := sessionUser; loading := loading st; currentPage := currentPage st |}.

(** The two callbacks built in the render: [() => setCurrentPage(...)]. *)
Inductive Callback := onNavigateHome | onNavigateToExpenses.

Definition invoke (c : Callback) (st : State) : State :=
  match c with
  | onNavigateHome =>
      {| user := user st; loading := loading st; currentPage := dashboard |}
  | onNavigateToExpenses =>
      {| user := user st; loading := loading st; currentPage := expenses |}
  end.

Inductive Screen :=
  | Spinner
  | LoginScreen
  | ExpenseSubmissionsScreen (user : string)
  | DashboardScreen (user : string).

Definition render (st : State) : Screen :=
  if loading st then Spinner
  else match user st with
       | None => LoginScreen
       | Some u =>
           match currentPage st with
           | expenses => ExpenseSubmissionsScreen u
           | dashboard => DashboardScreen u
           end
       end.

(** The callback each screen is handed in its props. *)
Definition handed (screen : Screen) : list Callback :=
  match screen with
  | ExpenseSubmissionsScreen _ => [onNavigateHome]
  | DashboardScreen _ => [onNavigateToExpenses]
  | _ => []
  end.

(** The callbacks a screen takes from its props and wires to something the
    user can press: ExpenseSubmissions takes [{ user, onNavigateHome }] and
    puts the callback on the breadcrumb; Dashboard takes [{ user }] alone. *)
Definition wired (screen : Screen) : list Callback :=
  match screen with
  | ExpenseSubmissionsScreen _ => [onNavigateHome]
  | _ => []
  end.

(** What can happen to the state: the session arrives, the authentication
    state changes, or the user presses something wired on the screen shown. *)
Inductive step : State → State → Prop :=
  | step_session sessionUser st : step st (sessionLoaded sessionUser st)
  | step_auth sessionUser st : step st (authStateChanged sessionUser st)
  | step_press c st : c ∈ wired (render st) → step st (invoke c st).

End App.

(** ** The spec's transition relation *)

Module Spec.

(** Allowed transitions, in the words of the specification:
    assigned → in_progress and in_progress → closed, and no other. *)
Definition allowed_transition (current requested : string) : Prop :=
  (current = "assigned" ∧ requested = "in_progress")
  ∨ (current = "in_progress" ∧ requested = "closed").

(** A request is rejected when no update leaves the component. *)
Definition rejected (o : Dashboard.Outcome) : Prop :=
  Forall (λ r, is_update r = false) (Dashboard.requests o).

(** The exact sum of the amounts of a list of expenses. *)
Definition exact_sum (expenses : list ExpenseSubmission.t) : Q :=
  foldr (λ exp acc, Binary64.value (ExpenseSubmission.amount exp) + acc)%Q 0%Q expenses.

(** The same sum counted in steps of [2 ^ emin]. *)
Definition exact_units (expenses : list ExpenseSubmission.t) : Z :=
  foldr (λ exp acc, Binary64.units (ExpenseSubmission.amount exp) + acc)%Z 0%Z expenses.

(** The amount is a valid finite number and a whole, non-negative number
    of steps of [2 ^ g]: with [g = -2], a whole number of quarters. *)
Definition amount_on_grid (g : Z) (exp : ExpenseSubmission.t) : Prop :=
  Binary64.valid (ExpenseSubmission.amount exp) = true
  ∧ Binary64.is_finite (ExpenseSubmission.amount exp) = true
  ∧ ∃ X : Z, (0 ≤ X)%Z
      ∧ (Binary64.value (ExpenseSubmission.amount exp) == inject_Z X * 2 ^ g)%Q.

(** The amount is some number of steps of [2 ^ (emin + G)]. *)
Definition steps (G : Z) (exp : ExpenseSubmission.t) : Prop :=
  ∃ X, Binary64.on_grid G X (ExpenseSubmission.amount exp).

(** The records that pass the month filter: all of them under "all",
    otherwise those whose label is the selected one. *)
Definition passes `{JS.DateRuntime} (selectedMonth : string)
    (exp : ExpenseSubmission.t) : Prop :=
  selectedMonth = "all"
  ∨ ExpenseSubmissions.getMonthYear (ExpenseSubmission.expense_date exp) = selectedMonth.

#[export] Instance passes_dec `{JS.DateRuntime} selectedMonth exp :
  Decision (passes selectedMonth exp).
Proof. unfold passes. apply _. Defined.

(** The calendar month of an expense date, in the words of the
    specification: the date-only string [YYYY-MM-DD] names day [d] of month
    [m] of year [y] of the Gregorian calendar. *)
Definition isLeapYear (y : Z) : Prop :=
  (y mod 4 = 0 ∧ (y mod 100 ≠ 0 ∨ y mod 400 = 0))%Z.

#[export] Instance isLeapYear_dec y : Decision (isLeapYear y).
Proof. unfold isLeapYear. apply _. Defined.

Definition daysInMonth (y m : Z) : Z :=
  if decide (m = 2)%Z then (if decide (isLeapYear y) then 29 else 28)%Z
  else if decide (m = 4 ∨ m = 6 ∨ m = 9 ∨ m = 11)%Z then 30%Z else 31%Z.

Definition calendar_date (s : string) (y m d : Z) : Prop :=
  UTCRuntime.parse_calendar_date s = Some (y, m, d) ∧ (d ≤ daysInMonth y m)%Z.

(** The label of month [m] of year [y], as the month selector shows it:
    the English month name and the year. *)
Definition monthLabel (y m : Z) : string :=
  default "" (UTCRuntime.monthNames !! Z.to_nat (m - 1)) +:+ " " +:+ pretty y.

(** Label [a] names a month that is not earlier than the month of label
    [b]: both read back as valid dates, and the time of [b] is at most the
    time of [a]. *)
Definition not_earlier `{JS.DateRuntime} (a b : string) : Prop :=
  ∃ ta tb, JS.getTime (JS.newDate a) = Some ta
           ∧ JS.getTime (JS.newDate b) = Some tb ∧ (tb ≤ ta)%Z.

End Spec.

(** * Properties of the dashboard *)

Module DashboardFacts.
Import Dashboard.

Implicit Types (typedData : list ServiceCall.t) (call : ServiceCall.t).

Lemma elem_of_withStatus s typedData call :
  call ∈ withStatus s typedData ↔ ServiceCall.status call = s ∧ call ∈ typedData.
Proof. unfold withStatus. by rewrite list_elem_of_filter. Qed.

Lemma withStatus_sublist s typedData : sublist (withStatus s typedData) typedData.
Proof. unfold withStatus. apply sublist_filter. Qed.

(** The three queues hold, between them, the calls whose status is one of
    the three declared values, each once. *)
Lemma queues_Permutation typedData :
  withStatus "assigned" typedData ++ withStatus "in_progress" typedData
    ++ withStatus "closed" typedData
  ≡ₚ filter (λ call, ServiceCall.status_typed (ServiceCall.status call)) typedData.
Proof.
  unfold withStatus.
  induction typedData as [|call typedData IH]; [done|].
  rewrite !filter_cons.
  destruct (decide (ServiceCall.status call = "assigned")) as [Ha|Ha].
  { rewrite Ha. simpl. by f_equiv. }
  destruct (decide (ServiceCall.status call = "in_progress")) as [Hi|Hi].
  { rewrite Hi. simpl. rewrite <- Permutation_middle. by f_equiv. }
  destruct (decide (ServiceCall.status call = "closed")) as [Hc|Hc].
  { rewrite Hc. simpl.
    rewrite app_assoc, <- Permutation_middle, <- app_assoc. by f_equiv. }
  rewrite decide_False; [done|].
  unfold ServiceCall.status_typed. tauto.
Qed.

Lemma filter_all_typed typedData :
  Forall (λ call, ServiceCall.status_typed (ServiceCall.status call)) typedData →
  filter (λ call, ServiceCall.status_typed (ServiceCall.status call)) typedData = typedData.
Proof.
  induction 1 as [|call typedData Hc _ IH]; [done|].
  by rewrite filter_cons_True, IH.
Qed.

Lemma queues_length typedData :
  length (withStatus "assigned" typedData) + length (withStatus "in_progress" typedData)
    + length (withStatus "closed" typedData)
  = length (filter (λ call, ServiceCall.status_typed (ServiceCall.status call)) typedData).
Proof. rewrite <- (queues_Permutation typedData), !length_app. lia. Qed.

Lemma fetched_state user_id typedData st :
  state (fetchServiceCalls user_id (resolved typedData) st)
  = {| assignedCalls := withStatus "assigned" typedData;
       inProgressCalls := withStatus "in_progress" typedData;
       closedCalls := withStatus "closed" typedData;
       loading := false;
       refreshing := false |}.
Proof. reflexivity. Qed.

(** C4.  When every record carries one of the three declared statuses, the
    fetch places each record in exactly one queue, the one its status
    names; each queue keeps the records in their incoming order; and the
    queues together are a rearrangement of the input, so their sizes add up
    to the input's size. *)
Theorem fetchServiceCalls_partitions user_id typedData st :
  Forall (λ call, ServiceCall.status_typed (ServiceCall.status call)) typedData →
  let st' := state (fetchServiceCalls user_id (resolved typedData) st) in
  (∀ call, call ∈ typedData →
     (ServiceCall.status call = "assigned" ∧ call ∈ assignedCalls st'
        ∧ (call ∉ inProgressCalls st') ∧ (call ∉ closedCalls st'))
     ∨ (ServiceCall.status call = "in_progress" ∧ (call ∉ assignedCalls st')
        ∧ call ∈ inProgressCalls st' ∧ (call ∉ closedCalls st'))
     ∨ (ServiceCall.status call = "closed" ∧ (call ∉ assignedCalls st')
        ∧ (call ∉ inProgressCalls st') ∧ call ∈ closedCalls st'))
  ∧ sublist (assignedCalls st') typedData
  ∧ sublist (inProgressCalls st') typedData
  ∧ sublist (closedCalls st') typedData
  ∧ assignedCalls st' ++ inProgressCalls st' ++ closedCalls st' ≡ₚ typedData
  ∧ length (assignedCalls st') + length (inProgressCalls st') + length (closedCalls st')
    = length typedData.
Proof.
  intros Htyped st'. subst st'. rewrite fetched_state. simpl.
  split_and!; try apply withStatus_sublist.
  - intros call Hin.
    rewrite !elem_of_withStatus.
    rewrite Forall_forall in Htyped.
    destruct (Htyped call Hin) as [Hs|[Hs|Hs]]; rewrite Hs.
    + left. repeat split; try done; intros [? _]; discriminate.
    + right; left. repeat split; try done; intros [? _]; discriminate.
    + right; right. repeat split; try done; intros [? _]; discriminate.
  - by rewrite queues_Permutation, filter_all_typed.
  - by rewrite queues_length, filter_all_typed.
Qed.

Lemma fetchServiceCalls_partitions_witness :
  let typedData := [Sample.call "1" "closed"; Sample.call "2" "assigned";
                    Sample.call "3" "in_progress"; Sample.call "4" "assigned"] in
  let st' := state (fetchServiceCalls "u1" (resolved typedData) Sample.idle) in
  assignedCalls st' = [Sample.call "2" "assigned"; Sample.call "4" "assigned"]
  ∧ length (assignedCalls st') + length (inProgressCalls st') + length (closedCalls st')
    = length typedData.
Proof.
  split; [reflexivity|].
  refine (proj2 (proj2 (proj2 (proj2 (proj2
    (fetchServiceCalls_partitions "u1"
       [Sample.call "1" "closed"; Sample.call "2" "assigned";
        Sample.call "3" "in_progress"; Sample.call "4" "assigned"] Sample.idle _)))))).
  repeat (constructor; [unfold ServiceCall.status_typed; simpl; auto|]).
  constructor.
Defined.

(** C10.  A record whose status is none of the three declared strings is in
    no queue after the fetch; the queues' sizes add up to the number of
    records bearing a declared status, which is then less than the size of
    the input. *)
Theorem fetchServiceCalls_drops_untyped user_id typedData st call :
  call ∈ typedData →
  ¬ ServiceCall.status_typed (ServiceCall.status call) →
  let st' := state (fetchServiceCalls user_id (resolved typedData) st) in
  (call ∉ assignedCalls st') ∧ (call ∉ inProgressCalls st') ∧ (call ∉ closedCalls st')
  ∧ length (assignedCalls st') + length (inProgressCalls st') + length (closedCalls st')
    = length (filter (λ c, ServiceCall.status_typed (ServiceCall.status c)) typedData)
  ∧ length (assignedCalls st') + length (inProgressCalls st') + length (closedCalls st')
    < length typedData.
Proof.
  intros Hin Hun st'. subst st'. rewrite fetched_state. simpl.
  rewrite !elem_of_withStatus, queues_length.
  unfold ServiceCall.status_typed in Hun.
  split_and!; [intros [Hs _]; auto..|done|].
  by apply (length_filter_lt _ _ call).
Qed.

Lemma fetchServiceCalls_drops_untyped_witness :
  let typedData := [Sample.call "1" "assigned"; Sample.call "2" "on_hold";
                    Sample.call "3" "closed"] in
  let st' := state (fetchServiceCalls "u1" (resolved typedData) Sample.idle) in
  length (assignedCalls st') + length (inProgressCalls st') + length (closedCalls st') = 2
  ∧ length (assignedCalls st') + length (inProgressCalls st') + length (closedCalls st')
    < length typedData.
Proof.
  split; [reflexivity|].
  refine (proj2 (proj2 (proj2 (proj2
    (fetchServiceCalls_drops_untyped "u1"
       [Sample.call "1" "assigned"; Sample.call "2" "on_hold"; Sample.call "3" "closed"]
       Sample.idle (Sample.call "2" "on_hold") _ _))))).
  - apply list_elem_of_In. simpl. auto.
  - unfold ServiceCall.status_typed. simpl. intros [?|[?|?]]; discriminate.
Defined.

(** The request a status change opens with: the update of the record
    [callId] by [updateData], whatever the update and the fetch come to. *)
Lemma handleStatusChange_sends user_id now updated fetched callId newStatus st :
  ∃ rest,
    requests (handleStatusChange user_id now updated fetched callId newStatus st)
    = Update "service_calls" (updateData now newStatus) callId :: rest.
Proof.
  unfold handleStatusChange. destruct (error updated); simpl; eauto.
Qed.

Lemma updateData_status now newStatus :
  updateData now newStatus !! "status" = Some (Some newStatus).
Proof. unfold updateData. repeat case_decide; by simplify_map_eq. Qed.

(** C1.  The status change to 'in_progress' sends a patch that sets
    [started_at] to the current time, the change to 'closed' one that sets
    [completed_at] to the current time; the patch holds the [status] field,
    that one time stamp when the status asks for it, and no other field. *)
Theorem handleStatusChange_patch user_id now updated fetched callId newStatus st :
  let patch := updateData now newStatus in
  (∃ rest,
     requests (handleStatusChange user_id now updated fetched callId newStatus st)
     = Update "service_calls" patch callId :: rest)
  ∧ patch !! "status" = Some (Some newStatus)
  ∧ patch !! "started_at"
    = (if decide (newStatus = "in_progress") then Some (Some now) else None)
  ∧ patch !! "completed_at"
    = (if decide (newStatus = "closed") then Some (Some now) else None)
  ∧ dom patch
    = {[ "status" ]}
      ∪ (if decide (newStatus = "in_progress") then {[ "started_at" ]}
         else if decide (newStatus = "closed") then {[ "completed_at" ]}
         else (∅ : gset string)).
Proof.
  intros patch. subst patch.
  split; [apply handleStatusChange_sends|].
  unfold updateData.
  destruct (decide (newStatus = "in_progress")) as [->|Hp].
  { simpl. rewrite dom_insert_L, dom_singleton_L.
    split_and!; [done..|set_solver]. }
  destruct (decide (newStatus = "closed")) as [->|Hc].
  { simpl. rewrite dom_insert_L, dom_singleton_L.
    split_and!; [done..|set_solver]. }
  rewrite dom_singleton_L.
  split_and!; [by simplify_map_eq..|set_solver].
Qed.

Example start_work_patch :
  updateData "2025-11-08T21:41:01.000Z" "in_progress"
  = {[ "status" := Some "in_progress"; "started_at" := Some "2025-11-08T21:41:01.000Z" ]}.
Proof. reflexivity. Qed.

(** C2, as stated, fails: asked to reopen a closed call, the handler sends
    the update like any other. *)
Lemma handleStatusChange_reopens_closed :
  ¬ Spec.allowed_transition (ServiceCall.status (Sample.call "7" "closed")) "assigned"
  ∧ requests (handleStatusChange "u1" "2025-11-08T21:41:01.000Z"
                (resolved ()) (resolved [Sample.call "7" "assigned"])
                (ServiceCall.id (Sample.call "7" "closed")) "assigned" Sample.idle)
    = [Update "service_calls" {[ "status" := Some "assigned" ]} "7";
       Select "service_calls" "u1"]
  ∧ ¬ Spec.rejected
        (handleStatusChange "u1" "2025-11-08T21:41:01.000Z"
           (resolved ()) (resolved [Sample.call "7" "assigned"])
           (ServiceCall.id (Sample.call "7" "closed")) "assigned" Sample.idle).
Proof.
  split_and!.
  - unfold Spec.allowed_transition. simpl. intros [[? _]|[? _]]; discriminate.
  - reflexivity.
  - unfold Spec.rejected. simpl. intros Hrej.
    apply Forall_cons_1 in Hrej as [Hupd _]. discriminate.
Qed.

(** C2, amended.  The card offers the change assigned → in_progress or
    in_progress → closed, on the call's own id, and offers no change for a
    call in any other status, a closed one in particular; the handler does
    not look at the call's current status: whatever change is requested,
    it sends the update carrying the requested status. *)
Theorem offered_transitions_allowed call :
  match ServiceCallCard.getActionButton call with
  | Some button =>
      (ServiceCallCard.onClick button).1 = ServiceCall.id call
      ∧ Spec.allowed_transition (ServiceCall.status call) (ServiceCallCard.onClick button).2
  | None =>
      ServiceCall.status call ≠ "assigned" ∧ ServiceCall.status call ≠ "in_progress"
  end
  ∧ (ServiceCallCard.getActionButton call = None
     ↔ ∀ requested, ¬ Spec.allowed_transition (ServiceCall.status call) requested)
  ∧ (ServiceCall.status call = "closed" → ServiceCallCard.getActionButton call = None)
  ∧ ∀ user_id now updated fetched newStatus st,
      ∃ rest,
        requests (handleStatusChange user_id now updated fetched
                    (ServiceCall.id call) newStatus st)
        = Update "service_calls" (updateData now newStatus) (ServiceCall.id call) :: rest
        ∧ updateData now newStatus !! "status" = Some (Some newStatus).
Proof.
  unfold ServiceCallCard.getActionButton, Spec.allowed_transition.
  split_and!.
  - repeat case_decide; simpl; tauto.
  - repeat case_decide; split; try done.
    + intros Hno. exfalso. apply (Hno "in_progress"). tauto.
    + intros Hno. exfalso. apply (Hno "closed"). tauto.
    + intros _ requested. tauto.
  - intros Hc. rewrite Hc. reflexivity.
  - intros user_id now updated fetched newStatus st.
    destruct (handleStatusChange_sends user_id now updated fetched
                (ServiceCall.id call) newStatus st) as [rest Hrest].
    exists rest. split; [done|]. apply updateData_status.
Qed.

End DashboardFacts.

(** * Properties of binary64 addition *)

Module Binary64Facts.
Import Binary64.
#[local] Open Scope Z_scope.

(** [digits2_pos m] is the number of binary digits of [m]. *)
Lemma digits2_pos_bounds (m : positive) :
  2 ^ (Zpos (digits2_pos m) - 1) ≤ Zpos m < 2 ^ Zpos (digits2_pos m).
Proof.
  induction m as [m IH|m IH|]; simpl digits2_pos.
  - rewrite Pos2Z.inj_succ, (Pos2Z.inj_xI m).
    replace (Z.succ (Zpos (digits2_pos m)) - 1) with (Z.succ (Zpos (digits2_pos m) - 1)) by lia.
    rewrite !Z.pow_succ_r by lia. lia.
  - rewrite Pos2Z.inj_succ, (Pos2Z.inj_xO m).
    replace (Z.succ (Zpos (digits2_pos m)) - 1) with (Z.succ (Zpos (digits2_pos m) - 1)) by lia.
    rewrite !Z.pow_succ_r by lia. lia.
  - simpl. lia.
Qed.

Lemma digits2_pos_unique (m : positive) (d : Z) :
  2 ^ (d - 1) ≤ Zpos m < 2 ^ d → Zpos (digits2_pos m) = d.
Proof.
  intros [Hlo Hhi]. pose proof (digits2_pos_bounds m) as [Hlo' Hhi'].
  assert (0 < d) as Hd.
  { destruct (Z.lt_trichotomy 0 d) as [?|[<-|Hneg]]; [done|simpl in Hhi; lia|].
    rewrite (Z.pow_neg_r 2 d) in Hhi by lia. lia. }
  assert (d - 1 < Zpos (digits2_pos m)).
  { apply (Z.pow_lt_mono_r_iff 2); lia. }
  assert (Zpos (digits2_pos m) - 1 < d).
  { apply (Z.pow_lt_mono_r_iff 2); lia. }
  lia.
Qed.

Lemma digits2_pos_shift (q : positive) (n : Z) (p : positive) :
  0 ≤ n → Zpos p = Zpos q * 2 ^ n →
  Zpos (digits2_pos p) = Zpos (digits2_pos q) + n.
Proof.
  intros Hn Hp. apply digits2_pos_unique. rewrite Hp.
  pose proof (digits2_pos_bounds q) as [Hlo Hhi].
  replace (Zpos (digits2_pos q) + n - 1) with ((Zpos (digits2_pos q) - 1) + n) by lia.
  rewrite !Z.pow_add_r by lia.
  assert (0 < 2 ^ n) by (apply Z.pow_pos_nonneg; lia).
  split; nia.
Qed.

(** Aligning a mantissa to a smaller exponent multiplies it by a power of
    two; aligning to a larger one leaves it alone. *)
Lemma iter_xO (m d : positive) : Zpos (Pos.iter xO m d) = Zpos m * 2 ^ Zpos d.
Proof.
  induction d as [|d IH] using Pos.peano_ind.
  - simpl. lia.
  - rewrite Pos.iter_succ, Pos2Z.inj_succ, Z.pow_succ_r by lia.
    rewrite (Pos2Z.inj_xO (Pos.iter xO m d)), IH. lia.
Qed.

Lemma shl_align_fst (m : positive) (e e' : Z) :
  e' ≤ e → Zpos (fst (shl_align m e e')) = Zpos m * 2 ^ (e - e').
Proof.
  intros He. unfold shl_align.
  destruct (e' - e) as [|d|d] eqn:Hd; simpl.
  - replace (e - e') with 0 by lia. simpl. lia.
  - lia.
  - rewrite iter_xO. f_equal. f_equal. lia.
Qed.

Lemma shl_align_id (m : positive) (e e' : Z) : e ≤ e' → shl_align m e e' = (m, e).
Proof.
  intros He. unfold shl_align. destruct (e' - e) eqn:Hd; [done|done|lia].
Qed.

(** Shifting right by [n] a multiple of [2 ^ n] leaves no remainder. *)
Lemma iter_shr_1_exact (n : positive) (q : Z) :
  0 ≤ q →
  SpecFloat.iter_pos shr_1 n {| shr_m := q * 2 ^ Zpos n; shr_r := false; shr_s := false |}
  = {| shr_m := q; shr_r := false; shr_s := false |}.
Proof.
  assert (Hone : ∀ q, 0 ≤ q →
    shr_1 {| shr_m := q * 2; shr_r := false; shr_s := false |}
    = {| shr_m := q; shr_r := false; shr_s := false |}).
  { intros [|p|p] Hq; simpl; [done| |lia].
    by rewrite Pos.mul_comm. }
  revert q. induction n as [n IH|n IH|]; intros q Hq; cbn [SpecFloat.iter_pos].
  - rewrite (Pos2Z.inj_xI n).
    replace (q * 2 ^ (2 * Zpos n + 1)) with ((q * 2 ^ Zpos n * 2 ^ Zpos n) * 2).
    2:{ rewrite !Z.pow_add_r, Z.pow_1_r by lia.
        replace (2 * Zpos n) with (Zpos n + Zpos n) by lia. rewrite Z.pow_add_r by lia. lia. }
    assert (0 ≤ 2 ^ Zpos n) by (apply Z.pow_nonneg; lia).
    rewrite Hone by nia. rewrite IH by nia. by apply IH.
  - rewrite (Pos2Z.inj_xO n).
    replace (q * 2 ^ (2 * Zpos n)) with (q * 2 ^ Zpos n * 2 ^ Zpos n).
    2:{ replace (2 * Zpos n) with (Zpos n + Zpos n) by lia. rewrite Z.pow_add_r by lia. lia. }
    assert (0 ≤ 2 ^ Zpos n) by (apply Z.pow_nonneg; lia).
    rewrite IH by nia. by apply IH.
  - rewrite Z.pow_1_r. by apply Hone.
Qed.

(** Rounding a mantissa whose bits below the target exponent are all zero
    only drops these bits. *)
Lemma binary_round_exact (p q : positive) (e n : Z) :
  0 ≤ n →
  fexp prec emax (Zpos (digits2_pos p) + e) = e + n →
  Zpos p = Zpos q * 2 ^ n →
  e + n ≤ emax - prec →
  binary_round prec emax false p e = S754_finite false q (e + n).
Proof.
  intros Hn Hfexp Hp Hbound.
  assert (Hdigits : Zpos (digits2_pos p) = Zpos (digits2_pos q) + n)
    by (by apply digits2_pos_shift).
  unfold binary_round. rewrite shl_align_id by lia.
  unfold binary_round_aux, shr_fexp. cbn [Zdigits2 shr_record_of_loc].
  rewrite Hfexp. replace (e + n - e) with n by lia.
  assert (Hshr : shr {| shr_m := Zpos p; shr_r := false; shr_s := false |} e n
                 = ({| shr_m := Zpos q; shr_r := false; shr_s := false |}, e + n)).
  { destruct n as [|k|k]; [|..|lia].
    - simpl. rewrite Z.add_0_r. do 2 f_equal. rewrite Z.pow_0_r in Hp. lia.
    - cbn [shr]. by rewrite Hp, iter_shr_1_exact. }
  rewrite Hshr. cbn [shr_m loc_of_shr_record round_nearest_even Zdigits2 shr_record_of_loc].
  replace (fexp prec emax (Zpos (digits2_pos q) + (e + n)) - (e + n)) with 0.
  2:{ replace (Zpos (digits2_pos q) + (e + n)) with (Zpos (digits2_pos p) + e) by lia. lia. }
  cbn [shr shr_m].
  by rewrite (proj2 (Z.leb_le _ _) Hbound).
Qed.

(** The sum of two positive finite numbers, when no bit is lost. *)
Lemma add_finite_exact (mx my p q : positive) (ex ey n : Z) :
  let ez := Z.min ex ey in
  Zpos p = Zpos mx * 2 ^ (ex - ez) + Zpos my * 2 ^ (ey - ez) →
  0 ≤ n →
  fexp prec emax (Zpos (digits2_pos p) + ez) = ez + n →
  Zpos p = Zpos q * 2 ^ n →
  ez + n ≤ emax - prec →
  add (S754_finite false mx ex) (S754_finite false my ey) = S754_finite false q (ez + n).
Proof.
  intros ez HM Hn Hfexp Hq Hbound.
  unfold add, SFadd. cbn [cond_Zopp]. fold ez.
  rewrite !shl_align_fst by (subst ez; lia).
  rewrite <- HM. cbn [binary_normalize].
  by apply binary_round_exact.
Qed.

Lemma emin_eq : emin = SpecFloat.emin prec emax.
Proof. reflexivity. Qed.

Lemma fexp_eq (z : Z) : fexp prec emax z = Z.max (z - 53) emin.
Proof. reflexivity. Qed.

Lemma valid_finite (s : bool) (m : positive) (e : Z) :
  valid (S754_finite s m e) = true
  ↔ Z.max (Zpos (digits2_pos m) + e - 53) emin = e ∧ e ≤ 971.
Proof.
  unfold valid, valid_binary, bounded, canonical_mantissa.
  rewrite andb_true_iff, Z.eqb_eq, Z.leb_le, fexp_eq. reflexivity.
Qed.

Lemma pow2_pos (k : Z) : 0 ≤ k → 0 < 2 ^ k.
Proof. intros. apply Z.pow_pos_nonneg; lia. Qed.

Lemma pow2_lt_inv (a b : Z) : 0 ≤ b → 2 ^ a < 2 ^ b → a < b.
Proof. intros Hb Hlt. apply (Z.pow_lt_mono_r_iff 2); lia. Qed.

(** Two positive numbers on a common grid whose sum has at most 53
    significant grid steps add without rounding. *)
Lemma add_on_grid_finite (G X Y : Z) (mx my : positive) (ex ey : Z) :
  0 ≤ G → G + emin ≤ 971 →
  on_grid G X (S754_finite false mx ex) →
  on_grid G Y (S754_finite false my ey) →
  X + Y < 2 ^ 53 →
  on_grid G (X + Y) (add (S754_finite false mx ex) (S754_finite false my ey)).
Proof.
  intros HG Hg (Hvx & _ & HX & Hux) (Hvy & _ & HY & Huy) Hsum.
  apply valid_finite in Hvx as [Hcx Hbx], Hvy as [Hcy Hby].
  cbn [units cond_Zopp] in Hux, Huy.
  set (ez := Z.min ex ey).
  assert (emin ≤ ez) as Hez by (subst ez; lia).
  set (T := ez - emin).
  set (M := Zpos mx * 2 ^ (ex - ez) + Zpos my * 2 ^ (ey - ez)).
  pose proof (pow2_pos (ex - ez) ltac:(subst ez; lia)) as Hpx.
  pose proof (pow2_pos (ey - ez) ltac:(subst ez; lia)) as Hpy.
  pose proof (pow2_pos T ltac:(subst T; lia)) as HpT.
  pose proof (pow2_pos G HG) as HpG.
  assert (0 < M) as HM by (subst M; nia).
  (* the sum, in grid steps *)
  assert (M * 2 ^ T = (X + Y) * 2 ^ G) as HMT.
  { subst M. rewrite Z.mul_add_distr_r, Z.mul_add_distr_r, <- Hux, <- Huy.
    rewrite <- !Z.mul_assoc, <- !Z.pow_add_r by (subst T ez; lia).
    do 2 f_equal; f_equal; subst T; lia. }
  set (p := Z.to_pos M).
  assert (Zpos p = M) as Hp by (subst p; apply Z2Pos.id; lia).
  pose proof (digits2_pos_bounds p) as [Hdlo Hdhi]. rewrite Hp in Hdlo, Hdhi.
  set (d := Zpos (digits2_pos p)) in *.
  assert (1 ≤ d) as Hd by (subst d; lia).
  set (n := Z.max (d + ez - 53) emin - ez).
  (* the target exponent is not below the smaller exponent *)
  assert (0 ≤ n) as Hn.
  { pose proof (digits2_pos_bounds mx) as [Hxlo _].
    pose proof (digits2_pos_bounds my) as [Hylo _].
    destruct (Z.le_ge_cases ex ey) as [Hle|Hle].
    - assert (ez = ex) as Hzx by (subst ez; lia).
      assert (Zpos (digits2_pos mx) - 1 < d).
      { apply pow2_lt_inv; [lia|]. rewrite Hzx, Z.sub_diag, Z.pow_0_r in *. subst M. nia. }
      subst n. lia.
    - assert (ez = ey) as Hzy by (subst ez; lia).
      assert (Zpos (digits2_pos my) - 1 < d).
      { apply pow2_lt_inv; [lia|]. rewrite Hzy, Z.sub_diag, Z.pow_0_r in *. subst M. nia. }
      subst n. lia. }
  (* and not above the grid *)
  assert (n ≤ G - T) as HnG.
  { assert (d - 1 + T < 53 + G).
    { apply pow2_lt_inv; [lia|].
      rewrite !Z.pow_add_r by (subst T; lia). nia. }
    subst n T. lia. }
  assert (M = (X + Y) * 2 ^ (G - T)) as HMG.
  { apply (Z.mul_reg_r _ _ (2 ^ T)); [lia|].
    rewrite HMT, <- Z.mul_assoc, <- Z.pow_add_r by (subst T; lia).
    do 2 f_equal. lia. }
  set (q := (X + Y) * 2 ^ (G - T - n)).
  assert (M = q * 2 ^ n) as Hq.
  { subst q. rewrite HMG, <- Z.mul_assoc, <- Z.pow_add_r by lia.
    do 2 f_equal. lia. }
  pose proof (pow2_pos n Hn) as Hpn.
  assert (0 < q) as Hqpos by nia.
  assert (Zpos (Z.to_pos q) = q) as Hqp by (apply Z2Pos.id; lia).
  assert (add (S754_finite false mx ex) (S754_finite false my ey)
          = S754_finite false (Z.to_pos q) (ez + n)) as ->.
  { apply (add_finite_exact mx my p (Z.to_pos q) ex ey n); fold ez.
    - by rewrite Hp.
    - done.
    - rewrite fexp_eq. fold d. subst n. lia.
    - by rewrite Hp, Hqp.
    - unfold emax, prec. subst n T. lia. }
  assert (d = Zpos (digits2_pos (Z.to_pos q)) + n) as Hdq.
  { subst d. apply digits2_pos_shift; [done|]. by rewrite Hp, Hqp. }
  split_and!.
  - apply valid_finite. split; [subst n; lia|subst n T; lia].
  - done.
  - lia.
  - cbn [units cond_Zopp]. rewrite Hqp.
    replace (ez + n - emin) with (n + T) by (subst T; lia).
    rewrite Z.pow_add_r, Z.mul_assoc, <- Hq by (subst T; lia). done.
Qed.

Lemma on_grid_nonneg (G X : Z) (s : bool) (m : positive) (e : Z) :
  on_grid G X (S754_finite s m e) → s = false.
Proof.
  intros (Hv & _ & HX & Hu). apply valid_finite in Hv as [Hc _].
  destruct s; [|done]. cbn [units cond_Zopp] in Hu.
  assert (emin ≤ e) by lia.
  pose proof (pow2_pos (e - emin) ltac:(lia)).
  assert (0 ≤ X * 2 ^ G) by (apply Z.mul_nonneg_nonneg; [done|apply Z.pow_nonneg; lia]).
  lia.
Qed.

Lemma on_grid_zero (G X : Z) (x : number) :
  0 ≤ G → on_grid G X x → units x = 0 → X = 0.
Proof.
  intros HG (_ & _ & HX & Hu) H0. pose proof (pow2_pos G HG). nia.
Qed.

(** Numbers on a common grid add without rounding, as long as the sum has
    at most 53 significant grid steps. *)
Lemma add_on_grid (G X Y : Z) (x y : number) :
  0 ≤ G → G + emin ≤ 971 →
  on_grid G X x → on_grid G Y y → X + Y < 2 ^ 53 →
  on_grid G (X + Y) (add x y).
Proof.
  intros HG Hg Hx Hy Hsum.
  destruct x as [sx|sx| |sx mx ex], y as [sy|sy| |sy my ey];
    try (destruct Hx as (_ & Hf & _); discriminate Hf);
    try (destruct Hy as (_ & Hf & _); discriminate Hf).
  - assert (X = 0) as -> by (by eapply on_grid_zero).
    assert (Y = 0) as -> by (by eapply on_grid_zero).
    destruct sx, sy; repeat split; done.
  - assert (X = 0) as -> by (by eapply on_grid_zero). exact Hy.
  - assert (Y = 0) as -> by (by eapply on_grid_zero).
    rewrite Z.add_0_r. exact Hx.
  - pose proof (on_grid_nonneg _ _ _ _ _ Hx) as ->.
    pose proof (on_grid_nonneg _ _ _ _ _ Hy) as ->.
    by apply add_on_grid_finite.
Qed.

(** ** Values as rationals *)

Lemma Qpow2_nonzero (k : Z) : ¬ (2 ^ k == 0)%Q.
Proof. apply Qpower_not_0. discriminate. Qed.

Lemma Qpow2_pos (k : Z) : (0 < 2 ^ k)%Q.
Proof. apply Qpower_0_lt. reflexivity. Qed.

Lemma inject_Z_pow2 (k : Z) : 0 ≤ k → (inject_Z (2 ^ k) == 2 ^ k)%Q.
Proof. intros Hk. by rewrite Zpower_Qpower. Qed.

(** A valid number is a whole number of steps of [2 ^ emin]. *)
Lemma value_units (x : number) :
  valid x = true → (value x == inject_Z (units x) * 2 ^ emin)%Q.
Proof.
  destruct x as [s|s| |s m e]; intros Hv; cbn [value units];
    try (change (inject_Z 0) with 0%Q; ring).
  apply valid_finite in Hv as [Hc _].
  rewrite inject_Z_mult, inject_Z_pow2 by lia.
  rewrite <- Qmult_assoc, <- Qpower_plus by discriminate.
  replace (e - emin + emin) with e by lia. reflexivity.
Qed.

Lemma units_of_value (g X : Z) (x : number) :
  emin ≤ g → valid x = true →
  (value x == inject_Z X * 2 ^ g)%Q → units x = X * 2 ^ (g - emin).
Proof.
  intros Hg Hv Hval. rewrite (value_units x Hv) in Hval.
  apply inject_Z_injective.
  apply (Qmult_inj_r _ _ (2 ^ emin)%Q); [apply Qpow2_nonzero|].
  rewrite Hval, inject_Z_mult, inject_Z_pow2 by lia.
  rewrite <- Qmult_assoc, <- Qpower_plus by discriminate.
  replace (g - emin + emin) with g by lia. reflexivity.
Qed.
End Binary64Facts.

(** * Properties of the runtime model *)

Module JSFacts.
Import JS.

Lemma elem_of_Set_add seen x y : y ∈ Set_add seen x ↔ y ∈ seen ∨ y = x.
Proof.
  unfold Set_add. case_decide as Hin.
  - split; [auto|]. intros [?| ->]; done.
  - rewrite elem_of_app, list_elem_of_singleton. done.
Qed.

Lemma NoDup_Set_add seen x : NoDup seen → NoDup (Set_add seen x).
Proof.
  unfold Set_add. intros Hnd. case_decide as Hin; [done|].
  apply NoDup_app. split_and!; [done| |apply NoDup_singleton].
  intros y Hy ->%list_elem_of_singleton. done.
Qed.

Lemma elem_of_foldl_Set_add xs seen y :
  y ∈ foldl Set_add seen xs ↔ y ∈ seen ∨ y ∈ xs.
Proof.
  revert seen. induction xs as [|x xs IH]; intros seen; simpl.
  - rewrite elem_of_nil. tauto.
  - rewrite IH, elem_of_Set_add, elem_of_cons. tauto.
Qed.

Lemma NoDup_foldl_Set_add xs seen : NoDup seen → NoDup (foldl Set_add seen xs).
Proof.
  revert seen. induction xs as [|x xs IH]; intros seen Hnd; simpl; [done|].
  by apply IH, NoDup_Set_add.
Qed.

(** A Set built from an array has the array's values, each once. *)
Lemma elem_of_Array_from_Set xs y : y ∈ Array_from_Set xs ↔ y ∈ xs.
Proof.
  unfold Array_from_Set. rewrite elem_of_foldl_Set_add, elem_of_nil. tauto.
Qed.

Lemma NoDup_Array_from_Set xs : NoDup (Array_from_Set xs).
Proof. apply NoDup_foldl_Set_add, NoDup_nil_2. Qed.

(** *** Property reads on an object literal *)

Lemma not_function_proto : "__proto__" ∉ ObjectPrototype_functions.
Proof.
  unfold ObjectPrototype_functions. intros Hin.
  repeat (apply elem_of_cons in Hin as [Hin|Hin]; [discriminate|]).
  by apply elem_of_nil in Hin.
Qed.

Lemma Get_entry entries key value :
  Get entries key = entry value ↔ entries !! key = Some value.
Proof.
  unfold Get. destruct (entries !! key) as [v|].
  - split; intros [= ->]; done.
  - repeat case_decide; split; discriminate.
Qed.

Lemma Get_undefined entries key :
  Get entries key = undefined
  ↔ entries !! key = None ∧ (key ∉ "__proto__" :: ObjectPrototype_functions).
Proof.
  unfold Get. rewrite not_elem_of_cons. destruct (entries !! key) as [v|].
  - split; [discriminate|]. intros [[=] _].
  - repeat case_decide; split; try discriminate; try tauto.
Qed.

Lemma Get_inheritedPrototype entries key :
  Get entries key = inheritedPrototype ↔ entries !! key = None ∧ key = "__proto__".
Proof.
  unfold Get. destruct (entries !! key) as [v|].
  - split; [discriminate|]. intros [[=] _].
  - repeat case_decide; split; try discriminate; try tauto.
Qed.

Lemma Get_inheritedFunction entries key name :
  Get entries key = inheritedFunction name
  ↔ entries !! key = None ∧ key = name ∧ name ∈ ObjectPrototype_functions.
Proof.
  unfold Get. destruct (entries !! key) as [v|].
  - split; [discriminate|]. intros [[=] _].
  - repeat case_decide; split; try discriminate.
    + intros (_ & <- & Hin). subst key. by apply not_function_proto in Hin.
    + intros [= <-]. done.
    + intros (_ & <- & _). done.
    + intros (_ & <- & Hin). done.
Qed.

Section Sort.
Context {A : Type} (comparefn : A → A → option Z).

Lemma sort_insert_Permutation x l : sort_insert comparefn x l ≡ₚ x :: l.
Proof.
  induction l as [|y l IH]; simpl; [done|].
  case_decide; [done|].
  rewrite IH. apply Permutation_swap.
Qed.

Lemma sort_Permutation l : sort comparefn l ≡ₚ l.
Proof.
  unfold sort. induction l as [|x l IH]; simpl; [done|].
  by rewrite sort_insert_Permutation, IH.
Qed.

(** Sortedness, for values on which the comparator is consistent with a
    transitive relation [R]: a result that is not positive puts the first
    argument in front, a positive one the second. *)
Context (valid : A → Prop) (R : relation A).
Hypothesis R_trans : ∀ x y z, R x y → R y z → R x z.
Hypothesis front : ∀ x y, valid x → valid y → (SortCompare comparefn x y ≤ 0)%Z → R x y.
Hypothesis back : ∀ x y, valid x → valid y → ¬ (SortCompare comparefn x y ≤ 0)%Z → R y x.

Lemma sort_insert_StronglySorted x l :
  valid x → Forall valid l →
  StronglySorted R l → StronglySorted R (sort_insert comparefn x l).
Proof.
  intros Hx Hl Hsorted.
  induction Hsorted as [|y l Hsorted IH Hy]; simpl.
  { repeat constructor. }
  apply Forall_cons_1 in Hl as [Hvy Hl].
  case_decide as Hcmp.
  - constructor; [by constructor|].
    constructor; [by apply front|].
    eapply Forall_impl; [exact Hy|]. intros z Hz.
    apply (R_trans x y z); [by apply front|done].
  - constructor; [by apply IH|].
    rewrite sort_insert_Permutation.
    constructor; [by apply back|done].
Qed.

Lemma sort_StronglySorted l : Forall valid l → StronglySorted R (sort comparefn l).
Proof.
  unfold sort. induction 1 as [|x l Hx Hl IH]; simpl; [constructor|].
  apply sort_insert_StronglySorted; [done| |done].
  fold (sort comparefn l). by rewrite sort_Permutation.
Qed.

End Sort.

End JSFacts.

(** * Properties of the calendar arithmetic of the concrete runtimes *)

Module CalendarFacts.
Import UTCRuntime Spec.

#[local] Open Scope Z_scope.

(** The year of the era is recovered from the day of the era. *)
Lemma yoe_of_doe (yoe doy : Z) :
  0 ≤ yoe < 400 → 0 ≤ doy ≤ 365 →
  (doy = 365 → (yoe + 1) mod 4 = 0 ∧ ((yoe + 1) mod 100 ≠ 0 ∨ (yoe + 1) mod 400 = 0)) →
  let doe := yoe * 365 + yoe / 4 - yoe / 100 + doy in
  0 ≤ doe < 146097
  ∧ (doe - doe / 1460 + doe / 36524 - doe / 146096) / 365 = yoe.
Proof.
  intros Hy Hd Hleap doe. subst doe.
  Z.div_mod_to_equations; lia.
Qed.

(** The month, counted from March, is recovered from the day of the year. *)
Lemma month_of_doy (mp d : Z) :
  0 ≤ mp ≤ 11 → 1 ≤ d →
  d ≤ (153 * (mp + 1) + 2) / 5 - (153 * mp + 2) / 5 →
  let doy := (153 * mp + 2) / 5 + d - 1 in
  (5 * doy + 2) / 153 = mp.
Proof.
  intros Hmp Hd Hlen doy. subst doy.
  Z.div_mod_to_equations; lia.
Qed.

(** A date of the calendar is the civil date of its day number. *)
Lemma civil_roundtrip (y m d : Z) :
  1 ≤ m ≤ 12 → 1 ≤ d ≤ daysInMonth y m →
  civil_from_days (days_from_civil y m d) = (y, m, d).
Proof.
  intros Hm Hd.
  unfold days_from_civil.
  set (y' := if decide (m ≤ 2) then y - 1 else y).
  set (era := y' / 400).
  set (yoe := y' - era * 400).
  set (mp := if decide (2 < m) then m - 3 else m + 9).
  set (doy := (153 * mp + 2) / 5 + d - 1).
  assert (0 ≤ yoe < 400) as Hyoe by (unfold yoe, era; Z.div_mod_to_equations; lia).
  assert (0 ≤ mp ≤ 11 ∧ (if decide (mp < 10) then mp + 3 else mp - 9) = m) as [Hmp Hmm].
  { unfold mp. repeat case_decide; lia. }
  assert (d ≤ (153 * (mp + 1) + 2) / 5 - (153 * mp + 2) / 5
          ∧ 0 ≤ doy ≤ 365
          ∧ (doy = 365 →
             (yoe + 1) mod 4 = 0 ∧ ((yoe + 1) mod 100 ≠ 0 ∨ (yoe + 1) mod 400 = 0)))
    as (Hlen & Hdoy & Hleap).
  { unfold daysInMonth, isLeapYear in Hd.
    assert (m = 1 ∨ m = 2 ∨ m = 3 ∨ m = 4 ∨ m = 5 ∨ m = 6 ∨ m = 7 ∨ m = 8 ∨ m = 9
            ∨ m = 10 ∨ m = 11 ∨ m = 12) as Hcases by lia.
    unfold doy, mp, yoe, era, y'.
    repeat (destruct Hcases as [Hc|Hcases]);
      repeat case_decide; try lia;
      (split_and!; [Z.div_mod_to_equations; lia..]). }
  destruct (yoe_of_doe yoe doy Hyoe Hdoy Hleap) as [Hdoe Hyoe'].
  pose proof (month_of_doy mp d Hmp (proj1 Hd) Hlen) as Hmp'.
  fold doy in Hmp'.
  set (doe := yoe * 365 + yoe / 4 - yoe / 100 + doy) in *.
  unfold civil_from_days.
  replace (era * 146097 + doe - 719468 + 719468) with (doe + era * 146097) by lia.
  rewrite Z.div_add by lia. rewrite (Z.div_small doe) by lia.
  replace (doe + era * 146097 - (0 + era) * 146097) with doe by lia.
  rewrite Hyoe'.
  replace (doe - (365 * yoe + yoe / 4 - yoe / 100)) with doy by (unfold doe; lia).
  rewrite Hmp', Hmm.
  f_equal; [f_equal|].
  - unfold yoe, y'. repeat case_decide; lia.
  - unfold doy. lia.
Qed.

(** What [parse_calendar_date] accepts has a month from 1 to 12 and a day
    from 1. *)
Lemma parse_calendar_date_range (s : string) (y m d : Z) :
  parse_calendar_date s = Some (y, m, d) → 1 ≤ m ≤ 12 ∧ 1 ≤ d ≤ 31.
Proof.
  unfold parse_calendar_date. case_decide; [|discriminate].
  destruct (numeral (substring 0 4 s)) as [y0|]; [|discriminate].
  destruct (numeral (substring 5 2 s)) as [m0|]; [|discriminate].
  destruct (numeral (substring 8 2 s)) as [d0|]; [|discriminate].
  case_decide as Hr; [|discriminate]. intros [= <- <- <-]. exact Hr.
Qed.

(** In a zone at or ahead of UTC, midnight UTC of a day is a time of that
    same day. *)
Lemma local_day_of_utc_midnight (offset day : Z) :
  0 ≤ offset < 1440 →
  (day * msPerDay + offset * ZonedRuntime.msPerMinute) / msPerDay = day.
Proof.
  intros Ho. unfold msPerDay, ZonedRuntime.msPerMinute.
  symmetry. apply (Z.div_unique_pos _ _ _ (offset * 60000)); lia.
Qed.

(** In such a zone the label of a calendar date is the label of its own
    month. *)
Lemma getMonthYear_calendar_date (offset : Z) (s : string) (y m d : Z) :
  0 ≤ offset < 1440 →
  calendar_date s y m d →
  ExpenseSubmissions.getMonthYear (H := ZonedRuntime.runtime offset) s = monthLabel y m.
Proof.
  intros Ho [Hparse Hd].
  destruct (parse_calendar_date_range s y m d Hparse) as [Hm [Hd1 _]].
  unfold ExpenseSubmissions.getMonthYear. simpl.
  unfold ZonedRuntime.newDate, ZonedRuntime.toLocaleString_year_month.
  rewrite Hparse, local_day_of_utc_midnight by done.
  rewrite civil_roundtrip by lia. reflexivity.
Qed.

End CalendarFacts.

(** * Properties of the expense screen *)

Module ExpenseFacts.
Import JS ExpenseSubmissions Spec.

Implicit Types (expenses : list ExpenseSubmission.t) (exp : ExpenseSubmission.t).

(** ** Display classification *)

(** C8.  A status outside the declared ones gets the default colour and a
    category outside the declared ones the default icon: both functions
    answer every string. *)
Theorem unknown_values_fall_back (status category : string) :
  ¬ ExpenseSubmission.status_typed status →
  ¬ ExpenseSubmission.category_typed category →
  getStatusColor status = "bg-gray-100 text-gray-700 border-gray-200"
  ∧ getCategoryIcon category = "📄".
Proof.
  unfold ExpenseSubmission.status_typed, ExpenseSubmission.category_typed.
  intros Hs Hc. split.
  - unfold getStatusColor.
    repeat (case_decide; [exfalso; apply Hs; subst; set_solver|]). done.
  - unfold getCategoryIcon.
    repeat (case_decide; [exfalso; apply Hc; subst; set_solver|]). done.
Qed.

Lemma unknown_values_fall_back_witness :
  getStatusColor "archived" = "bg-gray-100 text-gray-700 border-gray-200"
  ∧ getCategoryIcon "lodging" = "📄".
Proof.
  apply (unknown_values_fall_back "archived" "lodging").
  - unfold ExpenseSubmission.status_typed. intros Hin.
    repeat (apply elem_of_cons in Hin as [Hin|Hin]; [discriminate|]).
    by apply elem_of_nil in Hin.
  - unfold ExpenseSubmission.category_typed. intros Hin.
    repeat (apply elem_of_cons in Hin as [Hin|Hin]; [discriminate|]).
    by apply elem_of_nil in Hin.
Defined.

(** ** The month filter *)

Section Filter.
Context `{DateRuntime}.

Lemma filteredExpenses_all expenses : filteredExpenses "all" expenses = expenses.
Proof. reflexivity. Qed.

Lemma filter_True {A} (P : A → Prop) `{∀ x, Decision (P x)} (l : list A) :
  (∀ x, P x) → filter P l = l.
Proof.
  intros HP. induction l as [|x l IH]; [done|].
  by rewrite filter_cons_True, IH.
Qed.

Lemma filteredExpenses_filter selectedMonth expenses :
  filteredExpenses selectedMonth expenses = filter (passes selectedMonth) expenses.
Proof.
  unfold filteredExpenses. case_decide as Hsel.
  - symmetry. apply filter_True. intros exp. by left.
  - apply list_filter_iff. intros exp. unfold passes. tauto.
Qed.

(** Filtering is by label, whatever the runtime: under "all" every record
    passes, unchanged; under any other filter the records that pass are
    exactly those whose month label is the filter, in their incoming order;
    and each of the three totals adds up records that passed and no
    other. *)
Lemma filteredExpenses_by_label selectedMonth expenses :
  filteredExpenses "all" expenses = expenses
  ∧ (∀ exp, exp ∈ filteredExpenses selectedMonth expenses
       ↔ exp ∈ expenses
         ∧ (selectedMonth = "all"
            ∨ getMonthYear (ExpenseSubmission.expense_date exp) = selectedMonth))
  ∧ sublist (filteredExpenses selectedMonth expenses) expenses
  ∧ total (totals selectedMonth expenses)
    = reduce accumulate Binary64.zero (filter (passes selectedMonth) expenses)
  ∧ approved (totals selectedMonth expenses)
    = reduce accumulate Binary64.zero
        (filter (λ exp, isApproved exp ∧ passes selectedMonth exp) expenses)
  ∧ pending (totals selectedMonth expenses)
    = reduce accumulate Binary64.zero
        (filter (λ exp, isPending exp ∧ passes selectedMonth exp) expenses).
Proof.
  split; [reflexivity|].
  unfold totals, calculateTotals. simpl.
  rewrite filteredExpenses_filter.
  split_and!.
  - intros exp. rewrite list_elem_of_filter. unfold passes. tauto.
  - apply sublist_filter.
  - reflexivity.
  - by rewrite list_filter_filter.
  - by rewrite list_filter_filter.
Qed.


(** C9.  When no record passes the filter, the three totals are zero. *)
Theorem totals_of_nothing selectedMonth expenses :
  filteredExpenses selectedMonth expenses = [] →
  totals selectedMonth expenses
  = {| total := Binary64.zero; approved := Binary64.zero; pending := Binary64.zero |}.
Proof. unfold totals. intros ->. reflexivity. Qed.

Lemma totals_of_no_expenses selectedMonth :
  totals selectedMonth []
  = {| total := Binary64.zero; approved := Binary64.zero; pending := Binary64.zero |}.
Proof. unfold totals, filteredExpenses. by case_decide. Qed.

End Filter.

(** ** The month labels *)

Section Months.
Context `{DateRuntime}.

Lemma not_earlier_trans (a b c : string) :
  not_earlier a b → not_earlier b c → not_earlier a c.
Proof.
  intros (ta & tb & Ha & Hb & Hab) (tb' & tc & Hb' & Hc & Hbc).
  exists ta, tc. split_and!; [done..|].
  rewrite Hb in Hb'. injection Hb' as <-. lia.
Qed.

Lemma elem_of_uniqueMonths expenses label :
  label ∈ uniqueMonths expenses
  ↔ ∃ exp, exp ∈ expenses ∧ getMonthYear (ExpenseSubmission.expense_date exp) = label.
Proof.
  unfold uniqueMonths.
  rewrite JSFacts.sort_Permutation, JSFacts.elem_of_Array_from_Set, list_elem_of_fmap.
  split; intros (exp & ? & ?); exists exp; done.
Qed.


End Months.

#[local] Existing Instance UTCRuntime.runtime.

Example getMonthYear_of_days :
  getMonthYear "2025-11-01" = "November 2025"
  ∧ getMonthYear "2025-11-30" = "November 2025"
  ∧ getMonthYear "2024-02-29" = "February 2024"
  ∧ getMonthYear "2025-12-31" = "December 2025"
  ∧ getMonthYear "soon" = "Invalid Date".
Proof. vm_compute. repeat split. Qed.

Example filteredExpenses_of_november :
  filteredExpenses "November 2025"
    [Sample.expense "e1" "2025-11-08" 8550 "approved";
     Sample.expense "e2" "2025-10-30" 4200 "submitted";
     Sample.expense "e3" "2025-11-28" 15675 "paid"]
  = [Sample.expense "e1" "2025-11-08" 8550 "approved";
     Sample.expense "e3" "2025-11-28" 15675 "paid"].
Proof. vm_compute. reflexivity. Qed.

Example uniqueMonths_of_five :
  uniqueMonths
    [Sample.expense "e1" "2025-11-08" 8550 "approved";
     Sample.expense "e2" "2025-10-30" 4200 "submitted";
     Sample.expense "e3" "2025-11-28" 15675 "paid";
     Sample.expense "e4" "2025-12-01" 1000 "draft";
     Sample.expense "e5" "2024-12-31" 990 "rejected"]
  = ["December 2025"; "November 2025"; "October 2025"; "December 2024"].
Proof. vm_compute. reflexivity. Qed.

(** The UTC browser is the browser at offset 0. *)
Lemma newDate_offset_zero (s : string) :
  ZonedRuntime.newDate 0 s = UTCRuntime.newDate s.
Proof.
  unfold ZonedRuntime.newDate, UTCRuntime.newDate.
  destruct (UTCRuntime.parse_calendar_date s) as [[[y m] d]|]; [done|].
  destruct (UTCRuntime.parse_label s) as [[y m]|]; [|done].
  f_equal. unfold ZonedRuntime.msPerMinute. lia.
Qed.

Lemma toLocaleString_offset_zero (date : option Z) :
  ZonedRuntime.toLocaleString_year_month 0 date
  = UTCRuntime.toLocaleString_year_month date.
Proof.
  destruct date as [t|]; [|done].
  unfold ZonedRuntime.toLocaleString_year_month, UTCRuntime.toLocaleString_year_month.
  by replace (t + 0 * ZonedRuntime.msPerMinute)%Z with t by lia.
Qed.



Example filteredExpenses_ahead_of_utc :
  filteredExpenses (H := ZonedRuntime.runtime 330) "November 2025"
    [Sample.expense "e0" "2025-10-31" 4200 "submitted";
     Sample.expense "e1" "2025-11-01" 8550 "approved";
     Sample.expense "e2" "2025-11-30" 990 "paid";
     Sample.expense "e3" "2025-12-01" 1000 "draft"]
  = [Sample.expense "e1" "2025-11-01" 8550 "approved";
     Sample.expense "e2" "2025-11-30" 990 "paid"].
Proof. vm_compute. reflexivity. Qed.


Lemma totals_of_nothing_witness :
  totals "October 2025" [Sample.expense "e1" "2025-11-08" 8550 "approved"]
  = {| total := Binary64.zero; approved := Binary64.zero; pending := Binary64.zero |}
  ∧ totals "all" []
    = {| total := Binary64.zero; approved := Binary64.zero; pending := Binary64.zero |}.
Proof.
  split.
  - apply (totals_of_nothing "October 2025"
             [Sample.expense "e1" "2025-11-08" 8550 "approved"]).
    vm_compute. reflexivity.
  - apply (totals_of_nothing "all" []). reflexivity.
Defined.

(** ** The three totals *)

Lemma reduce_snoc (sum : Binary64.number) expenses exp :
  reduce accumulate sum (expenses ++ [exp])
  = Binary64.add (reduce accumulate sum expenses) (Number (ExpenseSubmission.amount exp)).
Proof. unfold reduce. by rewrite foldl_app. Qed.

(** One record: the total is the amount itself, but for the sign of zero. *)
Lemma total_of_one exp :
  Binary64.is_finite (ExpenseSubmission.amount exp) = true →
  (Binary64.value (total (calculateTotals [exp]))
   == Binary64.value (ExpenseSubmission.amount exp))%Q.
Proof.
  unfold calculateTotals, reduce, accumulate, Number. simpl.
  by destruct (ExpenseSubmission.amount exp) as [[]|[]| |].
Qed.

Lemma amount_on_grid_steps g exp :
  (Binary64.emin ≤ g)%Z → amount_on_grid g exp → steps (g - Binary64.emin) exp.
Proof.
  intros Hg (Hv & Hf & X & HX & Hval). exists X. split_and!; [done..|].
  by apply Binary64Facts.units_of_value.
Qed.

Lemma exact_units_nonneg G expenses :
  Forall (steps G) expenses → (0 ≤ exact_units expenses)%Z.
Proof.
  induction 1 as [|exp expenses (X & _ & _ & HX & Hu) _ IH]; simpl; [done|].
  rewrite Hu. assert (0 ≤ 2 ^ G)%Z by (apply Z.pow_nonneg; lia). nia.
Qed.

Lemma exact_units_filter_le G (P : ExpenseSubmission.t → Prop)
    `{∀ exp, Decision (P exp)} expenses :
  Forall (steps G) expenses →
  (0 ≤ exact_units (filter P expenses) ≤ exact_units expenses)%Z.
Proof.
  induction 1 as [|exp expenses (X & _ & _ & HX & Hu) _ IH]; [done|].
  rewrite filter_cons. assert (0 ≤ 2 ^ G)%Z by (apply Z.pow_nonneg; lia).
  case_decide; simpl; nia.
Qed.

(** Apart: what is approved is not pending. *)
Lemma approved_not_pending exp : isApproved exp → isPending exp → False.
Proof. unfold isApproved, isPending. intros [Ha|Ha] [Hp|Hp]; congruence. Qed.

Lemma draft_rejected_in_neither exp :
  ExpenseSubmission.status exp = "draft" ∨ ExpenseSubmission.status exp = "rejected" →
  ¬ isApproved exp ∧ ¬ isPending exp.
Proof.
  unfold isApproved, isPending. intros [Hs|Hs]; rewrite Hs; split; intros [?|?]; discriminate.
Qed.

Lemma exact_units_approved_pending G expenses :
  Forall (steps G) expenses →
  (exact_units (filter isApproved expenses) + exact_units (filter isPending expenses)
   ≤ exact_units expenses)%Z.
Proof.
  induction 1 as [|exp expenses (X & _ & _ & HX & Hu) _ IH]; [done|].
  rewrite !filter_cons. assert (0 ≤ 2 ^ G)%Z by (apply Z.pow_nonneg; lia).
  destruct (decide (isApproved exp)) as [Ha|Ha], (decide (isPending exp)) as [Hp|Hp];
    simpl; [destruct (approved_not_pending exp Ha Hp)|nia..].
Qed.

(** Adding up amounts on a common grid loses nothing, as long as the sum
    has at most 53 significant grid steps. *)
Lemma reduce_on_grid G expenses (sum : Binary64.number) S :
  (0 ≤ G)%Z → (G + Binary64.emin ≤ 971)%Z →
  Binary64.on_grid G S sum →
  Forall (steps G) expenses →
  (Binary64.units sum + exact_units expenses < 2 ^ 53 * 2 ^ G)%Z →
  Binary64.valid (reduce accumulate sum expenses) = true
  ∧ Binary64.is_finite (reduce accumulate sum expenses) = true
  ∧ Binary64.units (reduce accumulate sum expenses)
    = (Binary64.units sum + exact_units expenses)%Z.
Proof.
  intros HG Hg Hsum Hall. revert sum S Hsum.
  induction Hall as [|exp expenses (X & HX) Hall IH]; intros sum S Hsum Hbound.
  - simpl. destruct Hsum as (? & ? & _). split_and!; [done..|lia].
  - simpl in Hbound |- *.
    pose proof (exact_units_nonneg G expenses Hall) as Hrest.
    pose proof (Binary64Facts.pow2_pos G HG) as HpG.
    assert (S + X < 2 ^ 53)%Z as HSX.
    { destruct Hsum as (_ & _ & _ & Hus), HX as (_ & _ & _ & Hux).
      rewrite Hus, Hux in Hbound. nia. }
    pose proof (Binary64Facts.add_on_grid G S X _ _ HG Hg Hsum HX HSX) as Hadd.
    unfold accumulate at 2 4 6. unfold Number.
    destruct (IH _ _ Hadd) as (Hv & Hf & Hu).
    + destruct Hadd as (_ & _ & _ & ->), Hsum as (_ & _ & _ & Hus), HX as (_ & _ & _ & Hux).
      rewrite Hus, Hux in Hbound. lia.
    + split_and!; [done..|]. rewrite Hu.
      destruct Hadd as (_ & _ & _ & ->), Hsum as (_ & _ & _ & Hus), HX as (_ & _ & _ & Hux).
      rewrite Hus, Hux. lia.
Qed.

Lemma zero_on_grid G : Binary64.on_grid G 0 Binary64.zero.
Proof. repeat split; done. Qed.

Lemma exact_sum_units expenses :
  Forall (λ exp, Binary64.valid (ExpenseSubmission.amount exp) = true) expenses →
  (exact_sum expenses == inject_Z (exact_units expenses) * 2 ^ Binary64.emin)%Q.
Proof.
  induction 1 as [|exp expenses Hv _ IH].
  - unfold exact_sum, exact_units. cbn [foldr]. change (inject_Z 0) with 0%Q. ring.
  - unfold exact_sum, exact_units. cbn [foldr].
    fold (exact_sum expenses). fold (exact_units expenses).
    rewrite IH, (Binary64Facts.value_units _ Hv), inject_Z_plus. ring.
Qed.

Lemma grid_bound g expenses :
  (Binary64.emin ≤ g)%Z →
  Forall (amount_on_grid g) expenses →
  (exact_sum expenses < 2 ^ (53 + g))%Q →
  (exact_units expenses < 2 ^ 53 * 2 ^ (g - Binary64.emin))%Z.
Proof.
  intros Hg Hall Hsum.
  rewrite exact_sum_units in Hsum.
  2:{ eapply Forall_impl; [exact Hall|]. by intros exp (? & _). }
  rewrite Zlt_Qlt.
  apply (Qmult_lt_r _ _ (2 ^ Binary64.emin)%Q); [apply Binary64Facts.Qpow2_pos|].
  eapply Qlt_le_trans; [exact Hsum|].
  rewrite <- Z.pow_add_r by lia.
  rewrite Binary64Facts.inject_Z_pow2 by lia.
  rewrite <- Qpower_plus by discriminate.
  replace (53 + (g - Binary64.emin) + Binary64.emin)%Z with (53 + g)%Z by lia.
  apply Qle_refl.
Qed.

(** The heart of the matter for the totals. *)
Lemma reduce_exact g expenses :
  (Binary64.emin ≤ g ≤ 971)%Z →
  Forall (amount_on_grid g) expenses →
  (exact_sum expenses < 2 ^ (53 + g))%Q →
  Binary64.valid (reduce accumulate Binary64.zero expenses) = true
  ∧ Binary64.is_finite (reduce accumulate Binary64.zero expenses) = true
  ∧ Binary64.units (reduce accumulate Binary64.zero expenses) = exact_units expenses.
Proof.
  intros [Hg Hg'] Hall Hsum.
  apply (reduce_on_grid (g - Binary64.emin) expenses Binary64.zero 0).
  - lia.
  - lia.
  - apply zero_on_grid.
  - eapply Forall_impl; [exact Hall|]. intros exp. by apply amount_on_grid_steps.
  - simpl. by apply grid_bound.
Qed.

Lemma exact_units_steps G expenses :
  (0 ≤ G)%Z → Forall (steps G) expenses →
  ∃ X, (0 ≤ X)%Z ∧ exact_units expenses = (X * 2 ^ G)%Z.
Proof.
  intros HG. induction 1 as [|exp expenses (X & _ & _ & HX & Hu) _ (Y & HY & IH)].
  - exists 0%Z. done.
  - exists (X + Y)%Z. split; [lia|]. simpl. rewrite Hu, IH. lia.
Qed.

Lemma Forall_filter_keep {A} (P Q : A → Prop) `{∀ x, Decision (Q x)} (l : list A) :
  Forall P l → Forall P (filter Q l).
Proof.
  rewrite !Forall_forall. intros HP x [_ Hin]%list_elem_of_filter. by apply HP.
Qed.

(** On a grid, each of the three totals is the exact sum of its records. *)
Lemma calculateTotals_units G expenseList :
  (0 ≤ G)%Z → (G + Binary64.emin ≤ 971)%Z →
  Forall (steps G) expenseList →
  (exact_units expenseList < 2 ^ 53 * 2 ^ G)%Z →
  (∃ T, Binary64.on_grid G T (total (calculateTotals expenseList))
        ∧ Binary64.units (total (calculateTotals expenseList)) = exact_units expenseList)
  ∧ (∃ A, Binary64.on_grid G A (approved (calculateTotals expenseList))
          ∧ Binary64.units (approved (calculateTotals expenseList))
            = exact_units (filter isApproved expenseList))
  ∧ (∃ P, Binary64.on_grid G P (pending (calculateTotals expenseList))
          ∧ Binary64.units (pending (calculateTotals expenseList))
            = exact_units (filter isPending expenseList)).
Proof.
  intros HG Hg Hall Hbound.
  assert (Hpart : ∀ l, Forall (steps G) l → (exact_units l ≤ exact_units expenseList)%Z →
    ∃ X, Binary64.on_grid G X (reduce accumulate Binary64.zero l)
         ∧ Binary64.units (reduce accumulate Binary64.zero l) = exact_units l).
  { intros l Hl Hle.
    destruct (reduce_on_grid G l Binary64.zero 0 HG Hg (zero_on_grid G) Hl)
      as (Hv & Hf & Hu); [simpl; lia|].
    destruct (exact_units_steps G l HG Hl) as (X & HX & HXu).
    exists X. simpl in Hu. split; [|done]. split_and!; [done..|]. by rewrite Hu. }
  unfold calculateTotals. cbn [total approved pending].
  split_and!.
  - apply Hpart; [done|lia].
  - apply Hpart; [by apply Forall_filter_keep|].
    by apply (exact_units_filter_le G).
  - apply Hpart; [by apply Forall_filter_keep|].
    by apply (exact_units_filter_le G).
Qed.

Lemma value_le_of_units (x y : Binary64.number) :
  Binary64.valid x = true → Binary64.valid y = true →
  (Binary64.units x ≤ Binary64.units y)%Z → (Binary64.value x <= Binary64.value y)%Q.
Proof.
  intros Hx Hy Hle.
  rewrite (Binary64Facts.value_units x Hx), (Binary64Facts.value_units y Hy).
  apply Qmult_le_r; [apply Binary64Facts.Qpow2_pos|]. by rewrite <- Zle_Qle.
Qed.

Section Totals.
Context `{DateRuntime}.

(** C3, amended.  Over "all", the total is the binary64 sum of the amounts,
    added to 0 one after the other in list order.  When the amounts are
    whole, non-negative numbers of steps of some power of two [2 ^ g] (for
    [g = -2]: whole quarters, as 85.50, 42.00 and 156.75 are) and their
    exact sum is below [2 ^ (53 + g)], the total is that exact sum. *)
Theorem total_exact_on_grid g expenses :
  (Binary64.emin ≤ g ≤ 971)%Z →
  Forall (amount_on_grid g) expenses →
  (exact_sum expenses < 2 ^ (53 + g))%Q →
  total (totals "all" expenses) = reduce accumulate Binary64.zero expenses
  ∧ Binary64.is_finite (total (totals "all" expenses)) = true
  ∧ (Binary64.value (total (totals "all" expenses)) == exact_sum expenses)%Q.
Proof.
  intros Hg Hall Hsum.
  destruct (reduce_exact g expenses Hg Hall Hsum) as (Hv & Hf & Hu).
  unfold totals, calculateTotals. rewrite filteredExpenses_all. cbn [total].
  split_and!; [done..|].
  rewrite (Binary64Facts.value_units _ Hv), Hu. symmetry. apply exact_sum_units.
  eapply Forall_impl; [exact Hall|]. by intros exp (? & _).
Qed.

(** C6, amended.  No record counts both as approved and as pending, and a
    draft or rejected one counts as neither.  When the amounts are whole,
    non-negative numbers of steps of some power of two [2 ^ g] and their
    exact sum is below [2 ^ (53 + g)], approved plus pending is at most the
    total, under every month filter, whether the two are added exactly or
    as numbers. *)
Theorem approved_plus_pending_on_grid g selectedMonth expenses :
  (Binary64.emin ≤ g ≤ 971)%Z →
  Forall (amount_on_grid g) expenses →
  (exact_sum expenses < 2 ^ (53 + g))%Q →
  let t := totals selectedMonth expenses in
  (Binary64.value (approved t) + Binary64.value (pending t) <= Binary64.value (total t))%Q
  ∧ (Binary64.value (Binary64.add (approved t) (pending t)) <= Binary64.value (total t))%Q
  ∧ (∀ exp, ¬ (isApproved exp ∧ isPending exp))
  ∧ (∀ exp, ExpenseSubmission.status exp = "draft"
            ∨ ExpenseSubmission.status exp = "rejected" →
            ¬ isApproved exp ∧ ¬ isPending exp).
Proof.
  intros [Hg Hg'] Hall Hsum t. subst t. unfold totals.
  assert (HG : (0 ≤ g - Binary64.emin)%Z) by lia.
  assert (HG' : (g - Binary64.emin + Binary64.emin ≤ 971)%Z) by lia.
  pose proof (grid_bound g expenses Hg Hall Hsum) as Hbound.
  assert (Hsteps : Forall (steps (g - Binary64.emin)) expenses).
  { eapply Forall_impl; [exact Hall|]. intros exp. by apply amount_on_grid_steps. }
  set (l := filteredExpenses selectedMonth expenses).
  assert (Hl : Forall (steps (g - Binary64.emin)) l).
  { subst l. rewrite filteredExpenses_filter. by apply Forall_filter_keep. }
  assert (Hlb : (exact_units l < 2 ^ 53 * 2 ^ (g - Binary64.emin))%Z).
  { subst l. rewrite filteredExpenses_filter.
    pose proof (exact_units_filter_le (g - Binary64.emin) (passes selectedMonth)
                  expenses Hsteps). lia. }
  destruct (calculateTotals_units _ l HG HG' Hl Hlb)
    as ((T & HT & HTu) & (A & HA & HAu) & (P & HP & HPu)).
  pose proof (exact_units_approved_pending _ l Hl) as Hsplit.
  pose proof (Binary64Facts.pow2_pos _ HG) as Hpow.
  assert (HAP : (A + P < 2 ^ 53)%Z).
  { destruct HA as (_ & _ & _ & HA), HP as (_ & _ & _ & HP). nia. }
  pose proof (Binary64Facts.add_on_grid _ A P _ _ HG HG' HA HP HAP) as Hadd.
  split_and!.
  - destruct HT as (HTv & _), HA as (HAv & _), HP as (HPv & _).
    rewrite (Binary64Facts.value_units _ HTv), (Binary64Facts.value_units _ HAv),
      (Binary64Facts.value_units _ HPv).
    rewrite <- Qmult_plus_distr_l, <- inject_Z_plus.
    apply Qmult_le_r; [apply Binary64Facts.Qpow2_pos|]. rewrite <- Zle_Qle. lia.
  - apply value_le_of_units; [by destruct Hadd|by destruct HT|].
    destruct Hadd as (_ & _ & _ & ->), HA as (_ & _ & _ & HA), HP as (_ & _ & _ & HP). lia.
  - intros exp [Ha Hp]. exact (approved_not_pending exp Ha Hp).
  - apply draft_rejected_in_neither.
Qed.

End Totals.

(** C3, as stated, fails: ten cents and twenty cents do not add up to
    thirty cents, neither as the exact sum of the two amounts held nor as
    the number that 0.30 denotes. *)
Lemma total_of_ten_and_twenty_cents :
  let expenses := [Sample.expense "e1" "2025-11-08" 10 "approved";
                   Sample.expense "e2" "2025-11-09" 20 "approved"] in
  total (totals "all" expenses) = S754_finite false 5404319552844596 (-54)
  ∧ Binary64.of_cents 30 = S754_finite false 5404319552844595 (-54)
  ∧ ¬ (Binary64.value (total (totals "all" expenses)) == exact_sum expenses)%Q
  ∧ ¬ (Binary64.value (total (totals "all" expenses)) == 30 # 100)%Q.
Proof.
  split_and!.
  - vm_compute. reflexivity.
  - vm_compute. reflexivity.
  - intros Heq. vm_compute in Heq. discriminate Heq.
  - intros Heq. vm_compute in Heq. discriminate Heq.
Qed.

Lemma total_exact_on_grid_witness :
  (Binary64.value
     (total (totals "all"
        [Sample.expense "e1" "2025-11-08" 8550 "approved";
         Sample.expense "e2" "2025-11-09" 4200 "submitted";
         Sample.expense "e3" "2025-10-30" 15675 "paid"]))
   == 28425 # 100)%Q.
Proof.
  destruct (total_exact_on_grid (-2)
     [Sample.expense "e1" "2025-11-08" 8550 "approved";
      Sample.expense "e2" "2025-11-09" 4200 "submitted";
      Sample.expense "e3" "2025-10-30" 15675 "paid"]) as (_ & _ & Hv).
  - vm_compute. split; discriminate.
  - repeat (constructor; [split_and!; [vm_compute; reflexivity..|]|]).
    + exists 342%Z. split; [lia|]. vm_compute. reflexivity.
    + exists 168%Z. split; [lia|]. vm_compute. reflexivity.
    + exists 627%Z. split; [lia|]. vm_compute. reflexivity.
    + constructor.
  - vm_compute. reflexivity.
  - rewrite Hv. vm_compute. reflexivity.
Defined.

(** C6, as stated, fails: with 0.10 approved, 0.10 submitted and 1.00
    approved, the total is 1.2 and approved plus pending is more. *)
Lemma approved_plus_pending_exceeds_total :
  let expenses := [Sample.expense "e1" "2025-11-08" 10 "approved";
                   Sample.expense "e2" "2025-11-09" 10 "submitted";
                   Sample.expense "e3" "2025-11-10" 100 "approved"] in
  let t := totals "all" expenses in
  total t = Binary64.of_cents 120
  ∧ approved t = Binary64.of_cents 110
  ∧ pending t = Binary64.of_cents 10
  ∧ ¬ (Binary64.value (approved t) + Binary64.value (pending t) <= Binary64.value (total t))%Q
  ∧ SFltb (total t) (Binary64.add (approved t) (pending t)) = true.
Proof.
  split_and!.
  - vm_compute. reflexivity.
  - vm_compute. reflexivity.
  - vm_compute. reflexivity.
  - intros Hle. vm_compute in Hle. by apply Hle.
  - vm_compute. reflexivity.
Qed.

Example totals_of_three :
  totals "all"
    [Sample.expense "e1" "2025-11-08" 10000 "approved";
     Sample.expense "e2" "2025-11-09" 5000 "submitted";
     Sample.expense "e3" "2025-10-30" 3000 "rejected"]
  = {| total := Binary64.of_Z 180; approved := Binary64.of_Z 100;
       pending := Binary64.of_Z 50 |}.
Proof. vm_compute. reflexivity. Qed.

Lemma approved_plus_pending_on_grid_witness :
  let t := totals "all"
    [Sample.expense "e1" "2025-11-08" 10000 "approved";
     Sample.expense "e2" "2025-11-09" 5000 "submitted";
     Sample.expense "e3" "2025-10-30" 3000 "rejected"] in
  (Binary64.value (approved t) + Binary64.value (pending t) <= Binary64.value (total t))%Q.
Proof.
  refine (proj1 (approved_plus_pending_on_grid 0 "all"
     [Sample.expense "e1" "2025-11-08" 10000 "approved";
      Sample.expense "e2" "2025-11-09" 5000 "submitted";
      Sample.expense "e3" "2025-10-30" 3000 "rejected"] _ _ _)).
  - vm_compute. split; discriminate.
  - repeat (constructor; [split_and!; [vm_compute; reflexivity..|]|]).
    + exists 100%Z. split; [lia|]. vm_compute. reflexivity.
    + exists 50%Z. split; [lia|]. vm_compute. reflexivity.
    + exists 30%Z. split; [lia|]. vm_compute. reflexivity.
    + constructor.
  - vm_compute. reflexivity.
Defined.

End ExpenseFacts.

(** * Further properties of the dashboard *)

Module DashboardMore.
Import Dashboard.

Implicit Types (typedData : list ServiceCall.t) (call : ServiceCall.t) (st : State).

(** X1.  After a fetch that delivered data, each queue holds only calls of
    its own status, all of them taken from the data. *)
Theorem queues_hold_their_status user_id typedData st :
  let st' := state (fetchServiceCalls user_id (resolved typedData) st) in
  Forall (λ call, ServiceCall.status call = "assigned" ∧ call ∈ typedData)
    (assignedCalls st')
  ∧ Forall (λ call, ServiceCall.status call = "in_progress" ∧ call ∈ typedData)
      (inProgressCalls st')
  ∧ Forall (λ call, ServiceCall.status call = "closed" ∧ call ∈ typedData)
      (closedCalls st').
Proof.
  intros st'. subst st'. rewrite DashboardFacts.fetched_state. simpl.
  split_and!; apply Forall_forall; intros call Hin;
    by apply DashboardFacts.elem_of_withStatus in Hin.
Qed.

(** X2.  The last fetch wins: what an earlier fetch left behind, whatever
    it resolved to, has no influence on the state after a fetch that
    delivered data; and running the same fetch twice changes nothing more. *)
Theorem last_fetch_wins user_id (earlier later : Response (list ServiceCall.t))
    typedData st :
  state (fetchServiceCalls user_id (resolved typedData)
           (state (fetchServiceCalls user_id earlier st)))
  = state (fetchServiceCalls user_id (resolved typedData) st)
  ∧ state (fetchServiceCalls user_id later
             (state (fetchServiceCalls user_id later st)))
    = state (fetchServiceCalls user_id later st).
Proof.
  split.
  - reflexivity.
  - unfold fetchServiceCalls. destruct (error later); [reflexivity|].
    destruct (data later); reflexivity.
Qed.

(** X3.  A fetch that fails, or that delivers no data, leaves the three
    queues as they were; the loading and refreshing flags go down all the
    same, also when the fetch was started by the refresh button; and a line
    goes to the console exactly when there was an error. *)
Theorem failed_fetch_keeps_queues user_id
    (response : Response (list ServiceCall.t)) st :
  is_Some (error response) ∨ data response = None →
  let after := fetchServiceCalls user_id response st in
  assignedCalls (state after) = assignedCalls st
  ∧ inProgressCalls (state after) = inProgressCalls st
  ∧ closedCalls (state after) = closedCalls st
  ∧ loading (state after) = false
  ∧ refreshing (state after) = false
  ∧ state (handleRefresh user_id response st) = state after
  ∧ (ConsoleError "Error fetching service calls:" ∈ requests after
     ↔ is_Some (error response)).
Proof.
  intros Hfail after. subst after. unfold handleRefresh, fetchServiceCalls.
  destruct (error response) as [e|] eqn:He.
  - split_and!; try reflexivity. split; [eauto|]. intros _.
    apply elem_of_cons. right. by apply list_elem_of_singleton.
  - destruct Hfail as [[? [=]]|Hd]. rewrite Hd.
    split_and!; try reflexivity. split.
    + intros Hin. apply list_elem_of_singleton in Hin. discriminate.
    + intros [? [=]].
Qed.

Lemma failed_fetch_keeps_queues_witness :
  assignedCalls
    (state (fetchServiceCalls "u1" (failed "timeout")
              {| assignedCalls := [Sample.call "1" "assigned"];
                 inProgressCalls := [];
                 closedCalls := [];
                 loading := false;
                 refreshing := true |}))
  = [Sample.call "1" "assigned"].
Proof.
  refine (proj1 (failed_fetch_keeps_queues "u1" (failed "timeout")
    {| assignedCalls := [Sample.call "1" "assigned"];
       inProgressCalls := [];
       closedCalls := [];
       loading := false;
       refreshing := true |} _)).
  left. simpl. eauto.
Defined.

(** The refresh button: whatever the fetch resolves to, the state is the
    one a plain fetch leaves, so the flag it raised is down again. *)
Lemma handleRefresh_state user_id (response : Response (list ServiceCall.t)) st :
  state (handleRefresh user_id response st)
  = state (fetchServiceCalls user_id response st).
Proof.
  unfold handleRefresh, fetchServiceCalls.
  destruct (error response); [reflexivity|]. destruct (data response); reflexivity.
Qed.

Lemma fetchServiceCalls_sends_no_update user_id
    (response : Response (list ServiceCall.t)) st :
  filter (λ r, is_update r = true) (requests (fetchServiceCalls user_id response st)) = [].
Proof.
  unfold fetchServiceCalls.
  destruct (error response); [reflexivity|]. destruct (data response); reflexivity.
Qed.

(** X4.  One status change sends exactly one update, the one for the
    requested call; the fetch that may follow sends none. *)
Theorem one_update_per_change user_id now updated fetched callId newStatus st :
  filter (λ r, is_update r = true)
    (requests (handleStatusChange user_id now updated fetched callId newStatus st))
  = [Update "service_calls" (updateData now newStatus) callId].
Proof.
  unfold handleStatusChange. destruct (error updated); [reflexivity|].
  cbn [requests]. rewrite filter_cons_True by reflexivity.
  by rewrite fetchServiceCalls_sends_no_update.
Qed.

(** X5.  Nothing is moved on the screen by the handler itself: the state
    after a status change does not depend on which call or status was
    requested nor on the clock, only on what the store answered. *)
Theorem no_optimistic_move user_id now now' updated fetched
    callId callId' newStatus newStatus' st :
  state (handleStatusChange user_id now updated fetched callId newStatus st)
  = state (handleStatusChange user_id now' updated fetched callId' newStatus' st)
  ∧ state (handleStatusChange user_id now updated fetched callId newStatus st)
    = (if error updated is Some _ then st
       else state (fetchServiceCalls user_id fetched st)).
Proof.
  unfold handleStatusChange. destruct (error updated); split; reflexivity.
Qed.

(** X6.  When the update fails, the queues stay as they are, no fetch is
    sent, and the console gets one line. *)
Theorem failed_update_changes_nothing user_id now
    (updated : Response unit) fetched callId newStatus st :
  is_Some (error updated) →
  let after := handleStatusChange user_id now updated fetched callId newStatus st in
  state after = st
  ∧ requests after
    = [Update "service_calls" (updateData now newStatus) callId;
       ConsoleError "Error updating service call:"]
  ∧ (∀ table engineer, Select table engineer ∉ requests after).
Proof.
  intros [e He] after. subst after. unfold handleStatusChange. rewrite He.
  split_and!; [reflexivity..|].
  intros table engineer Hin. cbn [requests] in Hin.
  apply elem_of_cons in Hin as [[=]|Hin].
  apply list_elem_of_singleton in Hin. discriminate.
Qed.

Lemma failed_update_changes_nothing_witness :
  state (handleStatusChange "u1" "2025-11-08T21:41:01.000Z" (failed "denied")
           (resolved [Sample.call "7" "in_progress"]) "7" "in_progress" Sample.idle)
  = Sample.idle.
Proof.
  refine (proj1 (failed_update_changes_nothing "u1" "2025-11-08T21:41:01.000Z"
    (failed "denied") (resolved [Sample.call "7" "in_progress"]) "7" "in_progress"
    Sample.idle _)).
  simpl. eauto.
Defined.

(** X7.  The cards of the three queues: after a fetch that delivered data,
    every card in the first queue offers Start Work, every card in the
    second Complete, and no card in the third offers anything. *)
Theorem queue_cards_offer user_id typedData st :
  let st' := state (fetchServiceCalls user_id (resolved typedData) st) in
  Forall (λ call, ServiceCallCard.getActionButton call
                  = Some {| ServiceCallCard.onClick := (ServiceCall.id call, "in_progress");
                            ServiceCallCard.caption := "Start Work" |})
    (assignedCalls st')
  ∧ Forall (λ call, ServiceCallCard.getActionButton call
                    = Some {| ServiceCallCard.onClick := (ServiceCall.id call, "closed");
                              ServiceCallCard.caption := "Complete" |})
      (inProgressCalls st')
  ∧ Forall (λ call, ServiceCallCard.getActionButton call = None) (closedCalls st').
Proof.
  intros st'. subst st'. rewrite DashboardFacts.fetched_state. simpl.
  split_and!; apply Forall_forall; intros call Hin;
    apply DashboardFacts.elem_of_withStatus in Hin as [Hs _];
    unfold ServiceCallCard.getActionButton; rewrite Hs; reflexivity.
Qed.

(** X8.  Pressing the button a card offers sends the update of that very
    call, with the next status and the one time stamp that goes with it,
    and nothing else in the patch. *)
Theorem pressed_button_patch call button user_id now updated fetched st :
  ServiceCallCard.getActionButton call = Some button →
  ∃ newStatus stamp rest,
    requests (handleStatusChange user_id now updated fetched
                (ServiceCallCard.onClick button).1 (ServiceCallCard.onClick button).2 st)
    = Update "service_calls"
        (<[ stamp := Some now ]> {[ "status" := Some newStatus ]}) (ServiceCall.id call)
      :: rest
    ∧ ((ServiceCall.status call = "assigned" ∧ newStatus = "in_progress"
        ∧ stamp = "started_at")
       ∨ (ServiceCall.status call = "in_progress" ∧ newStatus = "closed"
          ∧ stamp = "completed_at")).
Proof.
  unfold ServiceCallCard.getActionButton. intros Hbutton.
  destruct (DashboardFacts.handleStatusChange_sends user_id now updated fetched
              (ServiceCallCard.onClick button).1 (ServiceCallCard.onClick button).2 st)
    as [rest Hrest].
  case_decide as Ha.
  - injection Hbutton as <-. simpl in *.
    exists "in_progress", "started_at", rest. split; [exact Hrest|]. by left.
  - case_decide as Hi; [|discriminate].
    injection Hbutton as <-. simpl in *.
    exists "closed", "completed_at", rest. split; [exact Hrest|]. by right.
Qed.

Lemma pressed_button_patch_witness :
  ∃ newStatus stamp rest,
    requests (handleStatusChange "u1" "2025-11-08T21:41:01.000Z" (resolved ())
                (resolved []) "7" "closed" Sample.idle)
    = Update "service_calls"
        (<[ stamp := Some "2025-11-08T21:41:01.000Z" ]> {[ "status" := Some newStatus ]})
        "7" :: rest
    ∧ ((ServiceCall.status (Sample.call "7" "in_progress") = "assigned"
        ∧ newStatus = "in_progress" ∧ stamp = "started_at")
       ∨ (ServiceCall.status (Sample.call "7" "in_progress") = "in_progress"
          ∧ newStatus = "closed" ∧ stamp = "completed_at")).
Proof.
  exact (pressed_button_patch (Sample.call "7" "in_progress")
           {| ServiceCallCard.onClick := ("7", "closed");
              ServiceCallCard.caption := "Complete" |}
           "u1" "2025-11-08T21:41:01.000Z" (resolved ()) (resolved []) Sample.idle
           eq_refl).
Defined.

End DashboardMore.

(** * Properties of the service-call card *)

Module CardFacts.
Import JS ServiceCallCard.

Lemma present_Some (s : option string) (x : string) :
  present s = Some x ↔ s = Some x ∧ x ≠ "".
Proof.
  unfold present. destruct s as [y|]; [|split; [discriminate|intros [[=] _]]].
  case_decide as Hy.
  - split; [discriminate|]. intros [[= ->] Hx]. done.
  - split; [intros [= ->]; done|]. by intros [[= ->] _].
Qed.

(** X9.  However the record's time stamps are filled, a card never shows
    the Started and the Completed banner together, never shows the
    Completed banner together with a button, and shows the Started banner
    only beside the Complete button; a banner always carries a date, never
    the words for a missing one. *)
Theorem banners_exclude (call : ServiceCall.t) :
  (is_Some (startedBanner (view call)) → completedBanner (view call) = None)
  ∧ (is_Some (completedBanner (view call)) → actionButton (view call) = None)
  ∧ (is_Some (startedBanner (view call)) →
     actionButton (view call)
     = Some {| onClick := (ServiceCall.id call, "closed"); caption := "Complete" |})
  ∧ startedBanner (view call) ≠ Some NotScheduled
  ∧ completedBanner (view call) ≠ Some NotScheduled
  ∧ (ServiceCall.status call = "assigned" →
     startedBanner (view call) = None ∧ completedBanner (view call) = None).
Proof.
  unfold view, getActionButton, dateText. cbn [startedBanner completedBanner actionButton].
  destruct (decide (ServiceCall.status call = "in_progress")) as [Hi|Hi];
    destruct (decide (ServiceCall.status call = "closed")) as [Hc|Hc];
    destruct (decide (ServiceCall.status call = "assigned")) as [Ha|Ha];
    try congruence;
    destruct (present (ServiceCall.started_at call));
    destruct (present (ServiceCall.completed_at call));
    split_and!; try done; try (by intros [? [=]]); try (intros; split; done).
Qed.

(** The own entries of the two tables. *)
Lemma categoryIcons_entry (category : string) :
  (∃ value, categoryIcons category = entry value)
  ↔ category ∈ ["installation"; "repair"; "maintenance"; "inspection"; "other"].
Proof.
  unfold categoryIcons. setoid_rewrite JSFacts.Get_entry.
  change (is_Some
    (({[ "installation" := "🔧"; "repair" := "🛠️"; "maintenance" := "⚙️";
         "inspection" := "🔍"; "other" := "📋" ]} : gmap string string) !! category)
    ↔ category ∈ ["installation"; "repair"; "maintenance"; "inspection"; "other"]).
  rewrite <- elem_of_dom, !dom_insert, dom_singleton.
  rewrite !elem_of_union, !elem_of_singleton, !elem_of_cons, elem_of_nil. tauto.
Qed.

Lemma priorityColors_entry (priority : string) :
  (∃ value, priorityColors priority = entry value)
  ↔ priority ∈ ["low"; "medium"; "high"; "critical"].
Proof.
  unfold priorityColors. setoid_rewrite JSFacts.Get_entry.
  change (is_Some
    (({[ "low" := "bg-blue-100 text-blue-800 border-blue-200";
         "medium" := "bg-yellow-100 text-yellow-800 border-yellow-200";
         "high" := "bg-orange-100 text-orange-800 border-orange-200";
         "critical" := "bg-red-100 text-red-800 border-red-200" ]}
       : gmap string string) !! priority)
    ↔ priority ∈ ["low"; "medium"; "high"; "critical"]).
  rewrite <- elem_of_dom, !dom_insert, dom_singleton.
  rewrite !elem_of_union, !elem_of_singleton, !elem_of_cons, elem_of_nil. tauto.
Qed.

(** A read that finds no own entry: the four ways a property read ends,
    told apart. *)
Lemma Get_cases (entries : gmap string string) (key : string) :
  (Get entries key = undefined
   ↔ ¬ (∃ value, Get entries key = entry value)
     ∧ (key ∉ "__proto__" :: ObjectPrototype_functions))
  ∧ (Get entries key = inheritedPrototype
     ↔ ¬ (∃ value, Get entries key = entry value) ∧ key = "__proto__")
  ∧ (∀ name, Get entries key = inheritedFunction name
     ↔ ¬ (∃ value, Get entries key = entry value)
       ∧ key = name ∧ name ∈ ObjectPrototype_functions).
Proof.
  assert (¬ (∃ value, Get entries key = entry value) ↔ entries !! key = None) as Hno.
  { setoid_rewrite JSFacts.Get_entry. destruct (entries !! key) as [v|].
    - split; [intros Hno; destruct Hno; by exists v|discriminate].
    - split; [done|]. intros _ [v [=]]. }
  split_and!.
  - rewrite Hno. apply JSFacts.Get_undefined.
  - rewrite Hno. apply JSFacts.Get_inheritedPrototype.
  - intros name. rewrite Hno. apply JSFacts.Get_inheritedFunction.
Qed.

(** X10.  The two tables of the card have an entry of their own for
    exactly the values the record type declares: every declared category
    has an icon and every declared priority a badge.  Any other string
    finds no entry of the table: the read gives undefined, unless the
    string is the name of a member that every object inherits, in which
    case it gives that member: one of the functions of Object.prototype,
    or the prototype object itself under the name __proto__. *)
Theorem tables_cover_declared_values (category priority : string) :
  ((∃ value, categoryIcons category = entry value)
   ↔ category ∈ ["installation"; "repair"; "maintenance"; "inspection"; "other"])
  ∧ ((∃ value, priorityColors priority = entry value)
     ↔ priority ∈ ["low"; "medium"; "high"; "critical"])
  ∧ (categoryIcons category = undefined
     ↔ (category ∉ ["installation"; "repair"; "maintenance"; "inspection"; "other"])
       ∧ (category ∉ "__proto__" :: ObjectPrototype_functions))
  ∧ (priorityColors priority = undefined
     ↔ (priority ∉ ["low"; "medium"; "high"; "critical"])
       ∧ (priority ∉ "__proto__" :: ObjectPrototype_functions))
  ∧ (categoryIcons category = inheritedPrototype ↔ category = "__proto__")
  ∧ (priorityColors priority = inheritedPrototype ↔ priority = "__proto__")
  ∧ (∀ name, categoryIcons category = inheritedFunction name
             ↔ category = name ∧ name ∈ ObjectPrototype_functions)
  ∧ (∀ name, priorityColors priority = inheritedFunction name
             ↔ priority = name ∧ name ∈ ObjectPrototype_functions).
Proof.
  pose proof (categoryIcons_entry category) as Hc.
  pose proof (priorityColors_entry priority) as Hp.
  unfold categoryIcons, priorityColors in *.
  match type of Hc with context [Get ?m _] =>
    destruct (Get_cases m category) as (Hcu & Hcp & Hcf) end.
  match type of Hp with context [Get ?m _] =>
    destruct (Get_cases m priority) as (Hpu & Hpp & Hpf) end.
  split_and!; [exact Hc|exact Hp|..].
  - rewrite Hcu, Hc. done.
  - rewrite Hpu, Hp. done.
  - rewrite Hcp, Hc. split; [tauto|]. intros ->. split; [|done].
    intros Hin. repeat (apply elem_of_cons in Hin as [Hin|Hin]; [discriminate|]).
    by apply elem_of_nil in Hin.
  - rewrite Hpp, Hp. split; [tauto|]. intros ->. split; [|done].
    intros Hin. repeat (apply elem_of_cons in Hin as [Hin|Hin]; [discriminate|]).
    by apply elem_of_nil in Hin.
  - intros name. rewrite Hcf, Hc. split; [tauto|]. intros [-> Hname]. split; [|done].
    intros Hin. unfold ObjectPrototype_functions in Hname.
    repeat (apply elem_of_cons in Hname as [->|Hname];
      [repeat (apply elem_of_cons in Hin as [Hin|Hin]; [discriminate|]);
       by apply elem_of_nil in Hin|]).
    by apply elem_of_nil in Hname.
  - intros name. rewrite Hpf, Hp. split; [tauto|]. intros [-> Hname]. split; [|done].
    intros Hin. unfold ObjectPrototype_functions in Hname.
    repeat (apply elem_of_cons in Hname as [->|Hname];
      [repeat (apply elem_of_cons in Hin as [Hin|Hin]; [discriminate|]);
       by apply elem_of_nil in Hin|]).
    by apply elem_of_nil in Hname.
Qed.

Example inherited_members_found :
  categoryIcons "repair" = entry "🛠️"
  ∧ categoryIcons "upgrade" = undefined
  ∧ categoryIcons "__proto__" = inheritedPrototype
  ∧ categoryIcons "toString" = inheritedFunction "toString"
  ∧ priorityColors "high" = entry "bg-orange-100 text-orange-800 border-orange-200"
  ∧ priorityColors "urgent" = undefined
  ∧ priorityColors "constructor" = inheritedFunction "constructor".
Proof. vm_compute. repeat split. Qed.

(** ** Dates on the card *)

Section Dates.
Context `{DateRuntime}.

Lemma formatDate_normal (dateString : option string) (text : DateText) :
  formatDate dateString = normal text → text = dateText dateString.
Proof.
  unfold formatDate, dateText. destruct (present dateString) as [s|].
  - simpl. destruct (getTime (newDate s)); [|discriminate]. by intros [= <-].
  - by intros [= <-].
Qed.

(** A rendering that completes shows the card as laid out. *)
Lemma render_normal (call : ServiceCall.t) (v : View) :
  render call = normal v → v = view call.
Proof.
  unfold render, view, mbind, Completion_bind, fmap, Completion_fmap.
  destruct (formatDate (ServiceCall.scheduled_date call)) as [scheduled|e] eqn:Hs;
    [|discriminate].
  apply formatDate_normal in Hs as ->.
  destruct (decide (ServiceCall.status call = "in_progress")) as [Hi|Hi];
    destruct (decide (ServiceCall.status call = "closed")) as [Hc|Hc];
    destruct (present (ServiceCall.started_at call)) as [s1|];
    destruct (present (ServiceCall.completed_at call)) as [s2|];
    repeat match goal with
    | |- context [formatDate ?d] =>
        let Hd := fresh "Hd" in
        destruct (formatDate d) as [?|?] eqn:Hd;
        [apply formatDate_normal in Hd as ->|discriminate]
    end;
    case_decide; try discriminate; by intros [= <-].
Qed.

(** X11.  A missing or empty scheduled date gives the words Not scheduled;
    a non-empty one that the runtime reads as a date is written through
    Intl; a non-empty one that is no date makes [formatDate] throw, and
    with it the rendering of the card, so that nothing of the card is
    shown.  On a card that is rendered, the scheduled text is what
    [formatDate] gave, a missing or empty location is shown as the words No
    location specified, and the location text is never empty. *)
Theorem missing_values_have_words (call : ServiceCall.t) :
  (formatDate (ServiceCall.scheduled_date call) = normal NotScheduled
   ↔ ServiceCall.scheduled_date call = None ∨ ServiceCall.scheduled_date call = Some "")
  ∧ (∀ s, formatDate (ServiceCall.scheduled_date call) = normal (Formatted s)
          ↔ ServiceCall.scheduled_date call = Some s ∧ s ≠ ""
            ∧ is_Some (getTime (newDate s)))
  ∧ (formatDate (ServiceCall.scheduled_date call) = throw "RangeError"
     ↔ ∃ s, ServiceCall.scheduled_date call = Some s ∧ s ≠ ""
            ∧ getTime (newDate s) = None)
  ∧ (formatDate (ServiceCall.scheduled_date call) = throw "RangeError"
     → render call = throw "RangeError")
  ∧ (∀ v, render call = normal v →
       formatDate (ServiceCall.scheduled_date call) = normal (scheduledText v)
       ∧ (locationText v = "No location specified"
          ↔ ServiceCall.location call = ""
            ∨ ServiceCall.location call = "No location specified")
       ∧ locationText v ≠ "").
Proof.
  split_and!.
  - unfold formatDate.
    destruct (ServiceCall.scheduled_date call) as [s|]; simpl; [|tauto].
    case_decide as Hs.
    + subst s. tauto.
    + destruct (getTime (newDate s)); (split; [discriminate|]); intros [[=]|[= ->]]; done.
  - intros s. unfold formatDate.
    destruct (present (ServiceCall.scheduled_date call)) as [x|] eqn:Hp.
    + apply present_Some in Hp as [Hd Hx]. rewrite Hd. simpl.
      destruct (getTime (newDate x)) as [t|] eqn:Ht.
      * split; [intros [= ->]; rewrite Ht; eauto|]. by intros ([= ->] & _ & _).
      * split; [discriminate|]. intros ([= ->] & _ & [t Ht']). congruence.
    + split; [discriminate|]. intros (Hd & Hs & _).
      assert (present (ServiceCall.scheduled_date call) = Some s) as Hp'
        by (by apply present_Some).
      congruence.
  - unfold formatDate.
    destruct (present (ServiceCall.scheduled_date call)) as [x|] eqn:Hp.
    + apply present_Some in Hp as [Hd Hx]. rewrite Hd. simpl.
      destruct (getTime (newDate x)) as [t|] eqn:Ht.
      * split; [discriminate|]. intros (s & [= ->] & _ & Hn). congruence.
      * split; [|done]. intros _. by exists x.
    + split; [discriminate|]. intros (s & Hd & Hs & _).
      assert (present (ServiceCall.scheduled_date call) = Some s) as Hp'
        by (by apply present_Some).
      congruence.
  - unfold render, mbind, Completion_bind. by intros ->.
  - intros v Hv. pose proof (render_normal call v Hv) as ->.
    unfold view. cbn [scheduledText locationText].
    split_and!.
    + unfold render, mbind, Completion_bind in Hv.
      destruct (formatDate (ServiceCall.scheduled_date call)) as [text|e] eqn:Hs;
        [|discriminate].
      by apply formatDate_normal in Hs as ->.
    + case_decide as Hl; [tauto|]. split; [tauto|]. intros [?|?]; done.
    + case_decide as Hl; [discriminate|done].
Qed.

End Dates.

#[local] Existing Instance UTCRuntime.runtime.

Example formatDate_of_three :
  formatDate None = normal NotScheduled
  ∧ formatDate (Some "") = normal NotScheduled
  ∧ formatDate (Some "2025-11-01") = normal (Formatted "2025-11-01")
  ∧ formatDate (Some "soon") = throw "RangeError"
  ∧ render (Sample.call "7" "assigned") = normal (view (Sample.call "7" "assigned")).
Proof. vm_compute. repeat split. Qed.

End CardFacts.

(** * Properties of the page switch *)

Module AppFacts.
Import App.

Lemma step_keeps_dashboard (st st' : State) :
  step st st' → currentPage st = dashboard → currentPage st' = dashboard.
Proof.
  intros Hstep Hpage. destruct Hstep as [u st|u st|c st Hc]; simpl; try done.
  destruct (render st); simpl in Hc;
    try (by apply elem_of_nil in Hc).
  apply list_elem_of_singleton in Hc. by subst c.
Qed.

Lemma steps_keep_dashboard (st st' : State) :
  rtc step st st' → currentPage st = dashboard → currentPage st' = dashboard.
Proof.
  induction 1 as [|st1 st2 st3 Hstep _ IH]; [done|].
  intros Hpage. apply IH. by eapply step_keeps_dashboard.
Qed.

(** X12.  As the screens are wired, the expense screen is never shown: in
    every state the application can reach from its start, the page is the
    dashboard. The callback that would switch pages is handed to the
    dashboard, which does not take it; called, it would show the expense
    screen to a signed-in user. *)
Theorem expenses_page_never_shown (st : State) :
  rtc step initial st →
  currentPage st = dashboard
  ∧ (∀ u, render st ≠ ExpenseSubmissionsScreen u)
  ∧ (∀ u, render st = DashboardScreen u →
          onNavigateToExpenses ∈ handed (render st)
          ∧ (onNavigateToExpenses ∉ wired (render st))
          ∧ render (invoke onNavigateToExpenses st) = ExpenseSubmissionsScreen u).
Proof.
  intros Hreach.
  assert (currentPage st = dashboard) as Hpage.
  { by apply (steps_keep_dashboard initial st). }
  split_and!; [done| |].
  - intros u. unfold render. rewrite Hpage.
    destruct (loading st); [done|]. destruct (user st); done.
  - intros u Hrender. rewrite Hrender. simpl.
    split_and!.
    + by apply list_elem_of_singleton.
    + apply not_elem_of_nil.
    + unfold render in *. simpl.
      destruct (loading st); [done|]. destruct (user st) as [v|]; [|done].
      rewrite Hpage in Hrender. by injection Hrender as ->.
Qed.

Lemma expenses_page_never_shown_witness :
  currentPage (authStateChanged None (sessionLoaded (Some "u1") initial)) = dashboard.
Proof.
  refine (proj1 (expenses_page_never_shown
    (authStateChanged None (sessionLoaded (Some "u1") initial)) _)).
  eapply rtc_l; [apply (step_session (Some "u1"))|].
  eapply rtc_l; [apply (step_auth None)|].
  apply rtc_refl.
Defined.

End AppFacts.

(** * Further properties of the expense screen *)

Module ExpenseMore.
Import JS ExpenseSubmissions Spec.

Implicit Types (expenses : list ExpenseSubmission.t) (exp : ExpenseSubmission.t).

Section Options.
Context `{DateRuntime}.

(** X13.  The month options fit the list: every option offered selects at
    least one record, there is no option exactly when there is no record,
    and there are never more options than records. *)
Theorem options_select_something expenses :
  Forall (λ month, filteredExpenses month expenses ≠ []) (uniqueMonths expenses)
  ∧ (uniqueMonths expenses = [] ↔ expenses = [])
  ∧ length (uniqueMonths expenses) ≤ length expenses.
Proof.
  split_and!.
  - apply Forall_forall. intros month Hin.
    apply ExpenseFacts.elem_of_uniqueMonths in Hin as (exp & Hexp & Hlabel).
    rewrite ExpenseFacts.filteredExpenses_filter. intros Hnil.
    assert (exp ∈ filter (passes month) expenses) as Hin'.
    { apply list_elem_of_filter. split; [by right|done]. }
    rewrite Hnil in Hin'. by apply elem_of_nil in Hin'.
  - split; [|by intros ->].
    destruct expenses as [|exp expenses]; [done|]. intros Hnil.
    assert (getMonthYear (ExpenseSubmission.expense_date exp)
            ∈ uniqueMonths (exp :: expenses)) as Hin.
    { apply ExpenseFacts.elem_of_uniqueMonths. exists exp. split; [left|done]. }
    rewrite Hnil in Hin. by apply elem_of_nil in Hin.
  - unfold uniqueMonths. rewrite JSFacts.sort_Permutation.
    rewrite <- (length_fmap (λ exp, getMonthYear (ExpenseSubmission.expense_date exp))
                  expenses).
    apply submseteq_length, NoDup_submseteq; [apply JSFacts.NoDup_Array_from_Set|].
    intros label. by rewrite JSFacts.elem_of_Array_from_Set.
Qed.

(** X14.  The options sort the records into months: every record is listed
    under the option that bears its own label, no record is listed under
    two different month options, and filtering what a filter let through
    changes nothing. *)
Theorem every_expense_under_its_label selectedMonth expenses :
  Forall (λ exp,
      getMonthYear (ExpenseSubmission.expense_date exp) ∈ uniqueMonths expenses
      ∧ exp ∈ filteredExpenses (getMonthYear (ExpenseSubmission.expense_date exp))
                expenses)
    expenses
  ∧ (∀ other exp, selectedMonth ≠ "all" → other ≠ "all" → selectedMonth ≠ other →
       exp ∈ filteredExpenses selectedMonth expenses →
       exp ∉ filteredExpenses other expenses)
  ∧ filteredExpenses selectedMonth (filteredExpenses selectedMonth expenses)
    = filteredExpenses selectedMonth expenses.
Proof.
  split_and!.
  - apply Forall_forall. intros exp Hin. split.
    + apply ExpenseFacts.elem_of_uniqueMonths. by exists exp.
    + rewrite ExpenseFacts.filteredExpenses_filter. apply list_elem_of_filter.
      split; [by right|done].
  - intros other exp Hsel Hother Hne.
    rewrite !ExpenseFacts.filteredExpenses_filter, !list_elem_of_filter.
    unfold passes. intros [[?|Hl] _] [[?|Hl'] _]; congruence.
  - rewrite !ExpenseFacts.filteredExpenses_filter, list_filter_filter.
    apply list_filter_iff. tauto.
Qed.

Lemma uniqueMonths_NoDup expenses : NoDup (uniqueMonths expenses).
Proof.
  unfold uniqueMonths. rewrite JSFacts.sort_Permutation.
  apply JSFacts.NoDup_Array_from_Set.
Qed.

Lemma uniqueMonths_sorted expenses :
  (∀ exp, exp ∈ expenses →
     is_Some (getTime (newDate (getMonthYear (ExpenseSubmission.expense_date exp))))) →
  StronglySorted not_earlier (uniqueMonths expenses).
Proof.
  intros Hreads. unfold uniqueMonths.
  apply (JSFacts.sort_StronglySorted _
           (λ label, is_Some (getTime (newDate label))) not_earlier).
  - apply ExpenseFacts.not_earlier_trans.
  - intros a b [ta Ha] [tb Hb]. unfold SortCompare. rewrite Ha, Hb. simpl.
    intros Hle. exists ta, tb. split_and!; [done..|lia].
  - intros a b [ta Ha] [tb Hb]. unfold SortCompare. rewrite Ha, Hb. simpl.
    intros Hgt. exists tb, ta. split_and!; [done..|lia].
  - apply Forall_forall. intros label.
    rewrite JSFacts.elem_of_Array_from_Set, list_elem_of_fmap.
    intros (exp & -> & Hin). by apply Hreads.
Qed.

(** X17.  One more record of a month that has its option already leaves
    the options as they are, order and all. *)
Theorem repeated_month_adds_no_option expenses exp :
  getMonthYear (ExpenseSubmission.expense_date exp) ∈ uniqueMonths expenses →
  uniqueMonths (expenses ++ [exp]) = uniqueMonths expenses.
Proof.
  intros Hin. unfold uniqueMonths in *.
  rewrite JSFacts.sort_Permutation in Hin.
  rewrite fmap_app. unfold Array_from_Set in *. rewrite foldl_app. cbn [fmap list_fmap foldl].
  unfold Set_add at 1. by rewrite decide_True.
Qed.

(** X18.  The options do not depend on the order in which the records
    arrive, as long as each label reads back as a date and two different
    labels never read back as the same moment. *)
Theorem options_order_free expenses expenses' :
  (∀ exp, exp ∈ expenses →
     is_Some (getTime (newDate (getMonthYear (ExpenseSubmission.expense_date exp))))) →
  (∀ exp1 exp2, exp1 ∈ expenses → exp2 ∈ expenses →
     getTime (newDate (getMonthYear (ExpenseSubmission.expense_date exp1)))
     = getTime (newDate (getMonthYear (ExpenseSubmission.expense_date exp2))) →
     getMonthYear (ExpenseSubmission.expense_date exp1)
     = getMonthYear (ExpenseSubmission.expense_date exp2)) →
  expenses ≡ₚ expenses' →
  uniqueMonths expenses = uniqueMonths expenses'.
Proof.
  intros Hreads Hinj Hperm.
  apply (StronglySorted_unique_strong not_earlier).
  - intros a b Ha Hb (ta & tb & Hta & Htb & Hle) (tb' & ta' & Htb' & Hta' & Hle').
    apply ExpenseFacts.elem_of_uniqueMonths in Ha as (exp1 & Hin1 & <-).
    apply ExpenseFacts.elem_of_uniqueMonths in Hb as (exp2 & Hin2 & <-).
    rewrite <- Hperm in Hin2.
    apply Hinj; [done..|]. rewrite Hta, Htb.
    rewrite Hta in Hta'. rewrite Htb in Htb'.
    injection Hta' as <-. injection Htb' as <-. f_equal. lia.
  - by apply uniqueMonths_sorted.
  - apply uniqueMonths_sorted. intros exp Hin. apply Hreads. by rewrite Hperm.
  - apply NoDup_Permutation; [apply uniqueMonths_NoDup..|].
    intros label. rewrite !ExpenseFacts.elem_of_uniqueMonths.
    split; intros (exp & Hin & Hl); exists exp; split; try done.
    + by rewrite <- Hperm.
    + by rewrite Hperm.
Qed.

End Options.

(** ** The totals as sums of numbers *)

Lemma add_comm (x y : Binary64.number) : Binary64.add x y = Binary64.add y x.
Proof.
  unfold Binary64.add, SFadd.
  destruct x as [[]|[]| |sx mx ex], y as [[]|[]| |sy my ey]; try reflexivity.
  by rewrite Z.min_comm, Z.add_comm.
Qed.

Lemma accumulate_swap (a b : ExpenseSubmission.t) :
  accumulate (accumulate Binary64.zero a) b = accumulate (accumulate Binary64.zero b) a.
Proof.
  unfold accumulate, Number.
  destruct (ExpenseSubmission.amount a) as [[]|[]| |sa ma ea] eqn:Ha;
    destruct (ExpenseSubmission.amount b) as [[]|[]| |sb mb eb] eqn:Hb;
    try reflexivity.
  change (Binary64.add Binary64.zero (S754_finite sa ma ea)) with (S754_finite sa ma ea).
  change (Binary64.add Binary64.zero (S754_finite sb mb eb)) with (S754_finite sb mb eb).
  apply add_comm.
Qed.

Lemma reduce_swap (P : ExpenseSubmission.t → Prop) `{∀ exp, Decision (P exp)}
    (a b : ExpenseSubmission.t) expenses :
  reduce accumulate Binary64.zero (filter P (a :: b :: expenses))
  = reduce accumulate Binary64.zero (filter P (b :: a :: expenses)).
Proof.
  rewrite !filter_cons.
  destruct (decide (P a)), (decide (P b)); try reflexivity.
  unfold reduce. cbn [foldl]. by rewrite accumulate_swap.
Qed.

(** X15.  The first two records may come in either order: swapping them
    changes none of the three totals, not even in the last bit. *)
Theorem totals_swap_first_two (a b : ExpenseSubmission.t) expenseList :
  calculateTotals (a :: b :: expenseList) = calculateTotals (b :: a :: expenseList).
Proof.
  unfold calculateTotals.
  rewrite (reduce_swap isApproved a b), (reduce_swap isPending a b).
  f_equal. unfold reduce. cbn [foldl]. by rewrite accumulate_swap.
Qed.

(** X16.  A record that is neither approved nor pending, a draft or a
    rejected one say, has no part in the approved and pending totals:
    with it or without it, wherever it stands in the list, the two come
    out the same to the last bit. *)
Theorem bystander_leaves_totals (before after : list ExpenseSubmission.t) exp :
  ¬ isApproved exp → ¬ isPending exp →
  approved (calculateTotals (before ++ exp :: after))
  = approved (calculateTotals (before ++ after))
  ∧ pending (calculateTotals (before ++ exp :: after))
    = pending (calculateTotals (before ++ after)).
Proof.
  intros Ha Hp. unfold calculateTotals. cbn [approved pending].
  by rewrite !filter_app, !filter_cons_False.
Qed.

Lemma bystander_leaves_totals_witness :
  approved (calculateTotals
    [Sample.expense "e1" "2025-11-08" 10 "approved";
     Sample.expense "e2" "2025-11-09" 999 "rejected";
     Sample.expense "e3" "2025-11-10" 20 "paid"])
  = approved (calculateTotals
      [Sample.expense "e1" "2025-11-08" 10 "approved";
       Sample.expense "e3" "2025-11-10" 20 "paid"]).
Proof.
  refine (proj1 (bystander_leaves_totals
    [Sample.expense "e1" "2025-11-08" 10 "approved"]
    [Sample.expense "e3" "2025-11-10" 20 "paid"]
    (Sample.expense "e2" "2025-11-09" 999 "rejected") _ _)).
  - unfold isApproved. simpl. intros [?|?]; discriminate.
  - unfold isPending. simpl. intros [?|?]; discriminate.
Defined.

Lemma exact_units_Permutation (l l' : list ExpenseSubmission.t) :
  l ≡ₚ l' → exact_units l = exact_units l'.
Proof. induction 1; simpl; lia. Qed.

(** X19.  On a grid the order of the records does not matter at all: when
    the amounts are whole, non-negative numbers of steps of one power of
    two and their exact sum is below [2 ^ (53 + g)], any rearrangement of
    the list gives the same three totals. *)
Theorem totals_order_free_on_grid g (expenseList expenseList' : list ExpenseSubmission.t) :
  (Binary64.emin ≤ g ≤ 971)%Z →
  Forall (amount_on_grid g) expenseList →
  (exact_sum expenseList < 2 ^ (53 + g))%Q →
  expenseList ≡ₚ expenseList' →
  (Binary64.value (total (calculateTotals expenseList))
   == Binary64.value (total (calculateTotals expenseList')))%Q
  ∧ (Binary64.value (approved (calculateTotals expenseList))
     == Binary64.value (approved (calculateTotals expenseList')))%Q
  ∧ (Binary64.value (pending (calculateTotals expenseList))
     == Binary64.value (pending (calculateTotals expenseList')))%Q.
Proof.
  intros [Hg Hg'] Hall Hsum Hperm.
  assert (HG : (0 ≤ g - Binary64.emin)%Z) by lia.
  assert (HG' : (g - Binary64.emin + Binary64.emin ≤ 971)%Z) by lia.
  pose proof (ExpenseFacts.grid_bound g expenseList Hg Hall Hsum) as Hbound.
  assert (Hsteps : Forall (steps (g - Binary64.emin)) expenseList).
  { eapply Forall_impl; [exact Hall|]. intros exp.
    by apply ExpenseFacts.amount_on_grid_steps. }
  assert (Hsteps' : Forall (steps (g - Binary64.emin)) expenseList')
    by (by rewrite <- Hperm).
  assert (Hbound' : (exact_units expenseList' < 2 ^ 53 * 2 ^ (g - Binary64.emin))%Z)
    by (by rewrite <- (exact_units_Permutation _ _ Hperm)).
  destruct (ExpenseFacts.calculateTotals_units _ expenseList HG HG' Hsteps Hbound)
    as ((T & HT & HTu) & (A & HA & HAu) & (P & HP & HPu)).
  destruct (ExpenseFacts.calculateTotals_units _ expenseList' HG HG' Hsteps' Hbound')
    as ((T' & HT' & HTu') & (A' & HA' & HAu') & (P' & HP' & HPu')).
  destruct HT as (HTv & _), HA as (HAv & _), HP as (HPv & _).
  destruct HT' as (HTv' & _), HA' as (HAv' & _), HP' as (HPv' & _).
  rewrite !Binary64Facts.value_units by done.
  rewrite HTu, HTu', HAu, HAu', HPu, HPu'.
  rewrite (exact_units_Permutation _ _ Hperm).
  rewrite (exact_units_Permutation (filter isApproved expenseList)
             (filter isApproved expenseList')) by (by rewrite Hperm).
  rewrite (exact_units_Permutation (filter isPending expenseList)
             (filter isPending expenseList')) by (by rewrite Hperm).
  done.
Qed.

Lemma totals_order_free_on_grid_witness :
  (Binary64.value (total (calculateTotals
     [Sample.expense "e1" "2025-11-08" 10000 "approved";
      Sample.expense "e2" "2025-11-09" 5000 "submitted";
      Sample.expense "e3" "2025-10-30" 3000 "rejected"]))
   == Binary64.value (total (calculateTotals
        [Sample.expense "e2" "2025-11-09" 5000 "submitted";
         Sample.expense "e1" "2025-11-08" 10000 "approved";
         Sample.expense "e3" "2025-10-30" 3000 "rejected"])))%Q.
Proof.
  refine (proj1 (totals_order_free_on_grid 0
     [Sample.expense "e1" "2025-11-08" 10000 "approved";
      Sample.expense "e2" "2025-11-09" 5000 "submitted";
      Sample.expense "e3" "2025-10-30" 3000 "rejected"]
     [Sample.expense "e2" "2025-11-09" 5000 "submitted";
      Sample.expense "e1" "2025-11-08" 10000 "approved";
      Sample.expense "e3" "2025-10-30" 3000 "rejected"] _ _ _ _)).
  - vm_compute. split; discriminate.
  - repeat (constructor; [split_and!; [vm_compute; reflexivity..|]|]).
    + exists 100%Z. split; [lia|]. vm_compute. reflexivity.
    + exists 50%Z. split; [lia|]. vm_compute. reflexivity.
    + exists 30%Z. split; [lia|]. vm_compute. reflexivity.
    + constructor.
  - vm_compute. reflexivity.
  - apply Permutation_swap.
Defined.

#[local] Existing Instance UTCRuntime.runtime.

Lemma repeated_month_adds_no_option_witness :
  uniqueMonths
    ([Sample.expense "e1" "2025-11-08" 8550 "approved";
      Sample.expense "e2" "2025-10-30" 4200 "submitted"]
     ++ [Sample.expense "e3" "2025-11-28" 15675 "paid"])
  = uniqueMonths
      [Sample.expense "e1" "2025-11-08" 8550 "approved";
       Sample.expense "e2" "2025-10-30" 4200 "submitted"].
Proof.
  apply (repeated_month_adds_no_option
    [Sample.expense "e1" "2025-11-08" 8550 "approved";
     Sample.expense "e2" "2025-10-30" 4200 "submitted"]
    (Sample.expense "e3" "2025-11-28" 15675 "paid")).
  apply list_elem_of_In. vm_compute. auto.
Defined.

Lemma options_order_free_witness :
  uniqueMonths
    [Sample.expense "e1" "2025-11-08" 8550 "approved";
     Sample.expense "e2" "2025-10-30" 4200 "submitted"]
  = uniqueMonths
      [Sample.expense "e2" "2025-10-30" 4200 "submitted";
       Sample.expense "e1" "2025-11-08" 8550 "approved"].
Proof.
  apply (options_order_free
    [Sample.expense "e1" "2025-11-08" 8550 "approved";
     Sample.expense "e2" "2025-10-30" 4200 "submitted"]
    [Sample.expense "e2" "2025-10-30" 4200 "submitted";
     Sample.expense "e1" "2025-11-08" 8550 "approved"]).
  - apply Forall_forall.
    repeat (constructor; [vm_compute; eexists; reflexivity|]). constructor.
  - intros exp1 exp2 Hin1 Hin2.
    apply elem_of_cons in Hin1 as [->|Hin1]; [|apply list_elem_of_singleton in Hin1 as ->];
      (apply elem_of_cons in Hin2 as [->|Hin2]; [|apply list_elem_of_singleton in Hin2 as ->]);
      vm_compute; intros Heq; first [reflexivity|discriminate Heq].
  - apply Permutation_swap.
Defined.

End ExpenseMore.
